(** * Viral Engine Pro: the video-composition request builder

    A shallow embedding of the scene timeline builder
    ([TemplateEngine.generateScenes], [TemplateEngine.calculateDuration],
    [buildCompositionConfig]) and of the filter-graph command compiler
    ([generateFFmpegCommand] with its stage builders) of
    [frontend/lib/templates/template-engine.ts] and of the caption style
    registry ([getCaptionStyle]); further on, of the polling loop of
    [composeVideo], the template registry and the media steps of the
    engine, the script builder, and the catalogue queries
    ([getAllCaptionStyles], [getTopViralTemplates]).

    Conventions of the embedding.
    - A JavaScript string is a [string] (a sequence of 8-bit characters);
      the whitespace class [\s] is taken on that range.
    - A JavaScript number that carries a quantity (a duration, a volume, a
      pixel size) is a rational [Q]; array indices, lengths and the input
      counter are [nat].  The proofs about timestamps never use a law of
      arithmetic: code and statement add in the same order.
    - An optional field ([x?: T]) is an [option].
    - The template literal [${n}] of a quantity is the parameter
      [numToString]; the literal of an index is its decimal numeral.
    - [generateFFmpegCommand] writes the input indices into the
      configuration it is given; the embedding returns the written
      configuration next to the command.  The scenes of a configuration
      are taken to be distinct objects, as [buildCompositionConfig] creates
      them.
    - [NaN] and the infinities are not numbers of the embedding. *)

From Stdlib Require Import List String Ascii ZArith QArith Qminmax Lia Bool Arith.
From Stdlib Require Import DecimalString DecimalNat FinFun Sorted Permutation.
Import ListNotations.
Close Scope Q_scope.
Open Scope list_scope.
Open Scope string_scope.

(* ================================================================= *)
(** ** The fragment of the JavaScript runtime the code relies on *)

Module Js.

(** The double quote character, and a string in double quotes. *)
Definition dq : string := String (ascii_of_nat 34) EmptyString.

Definition quoted (s : string) : string := dq ++ s ++ dq.

(** The line feed, and the separator ['\n\n']. *)
Definition lf : ascii := ascii_of_nat 10.

Definition blankLine : string := String lf (String lf EmptyString).

(** Truthiness of a string: every string but the empty one. *)
Definition truthy (s : string) : bool :=
  match s with
  | EmptyString => false
  | String _ _ => true
  end.

(** Truthiness of a number: every number but zero. *)
Definition truthyNum (q : Q) : bool := negb (Qnum q =? 0)%Z.

(** [x || d] on an optional string. *)
Definition orString (x : option string) (d : string) : string :=
  match x with
  | Some s => if truthy s then s else d
  | None => d
  end.

(** [x || d] on an optional number. *)
Definition orNum (x : option Q) (d : Q) : Q :=
  match x with
  | Some q => if truthyNum q then q else d
  | None => d
  end.

(** [`${i}`] for an index or a length. *)
Definition natToString (n : nat) : string :=
  NilZero.string_of_uint (Nat.to_uint n).

(** [`${x}`] for an optional index. *)
Definition indexToString (x : option nat) : string :=
  match x with
  | Some n => natToString n
  | None => "undefined"
  end.

(** [l.join(sep)]. *)
Definition join (sep : string) (l : list string) : string :=
  String.concat sep l.

(** [s.replace(/c/g, rep)] for a one-character pattern [c] and a
    replacement [rep] without [$]. *)
Fixpoint replaceAll (c : ascii) (rep : string) (s : string) : string :=
  match s with
  | EmptyString => EmptyString
  | String a s' =>
      if Ascii.eqb a c then rep ++ replaceAll c rep s'
      else String a (replaceAll c rep s')
  end.

(** [s.replace(/,$/, '')]: one comma at the very end is dropped. *)
Fixpoint dropFinalComma (s : string) : string :=
  match s with
  | EmptyString => EmptyString
  | String a s' =>
      match s' with
      | EmptyString => if Ascii.eqb a "," then EmptyString else s
      | String _ _ => String a (dropFinalComma s')
      end
  end.

(** [s.split(sep)] for a non-empty separator string: the pieces between
    the occurrences of [sep], found from left to right.  [skip] counts the
    characters of a found separator still to be passed, [cur] is the piece
    being read. *)
Fixpoint splitFrom (sep : string) (skip : nat) (cur : string) (s : string)
  : list string :=
  match s with
  | EmptyString => [cur]
  | String a s' =>
      match skip with
      | S k => splitFrom sep k cur s'
      | O =>
          if prefix sep s
          then cur :: splitFrom sep (String.length sep - 1) EmptyString s'
          else splitFrom sep 0 (cur ++ String a EmptyString) s'
      end
  end.

Definition split (sep : string) (s : string) : list string :=
  splitFrom sep 0 EmptyString s.

(** The class [\s] on 8-bit characters: tab, line feed, vertical tab,
    form feed, carriage return, space. *)
Definition isSpace (a : ascii) : bool :=
  let n := nat_of_ascii a in
  ((9 <=? n)%nat && (n <=? 13)%nat) || (n =? 32)%nat.

(** [s.split(/\s+/)]: the pieces between the maximal runs of whitespace.
    [inRun] holds while a run is being passed. *)
Fixpoint splitSpacesFrom (inRun : bool) (cur : string) (s : string)
  : list string :=
  match s with
  | EmptyString => [cur]
  | String a s' =>
      if isSpace a then
        if inRun then splitSpacesFrom true cur s'
        else cur :: splitSpacesFrom true EmptyString s'
      else splitSpacesFrom false (cur ++ String a EmptyString) s'
  end.

Definition splitSpaces (s : string) : list string :=
  splitSpacesFrom false EmptyString s.

(** [l.find(p)]. *)
Definition find {A : Type} (p : A -> bool) (l : list A) : option A :=
  List.find p l.

End Js.

(* ================================================================= *)
(** ** Types ([types.ts] and the interfaces of the compositor) *)

Module Shadow.
Record t : Type := mk {
  x : Q;
  y : Q;
  blur : Q;
  color : string
}.
End Shadow.

Module CaptionStyle.
Record t : Type := mk {
  fontFamily : string;
  fontSize : Q;
  fontWeight : Q;
  color : string;
  backgroundColor : option string;
  strokeColor : option string;
  strokeWidth : option Q;
  shadow : option Shadow.t;
  animation : string;
  position : string;
  maxWidth : Q;
  padding : Q
}.
End CaptionStyle.

Module SceneTemplate.
Record t : Type := mk {
  id : string;
  type : string;
  duration : option Q;
  textTemplate : option string;
  backgroundType : string;
  animation : string;
  captionStyle : string;
  musicTrack : option string;
  effects : option (list string)
}.
End SceneTemplate.

Module VideoScene.
Record t : Type := mk {
  id : string;
  text : string;
  duration : Q;
  type : string;
  animation : string;
  backgroundType : string;
  captionStyle : string;
  musicTrack : option string;
  effects : list string
}.
End VideoScene.

Module Resolution.
Record t : Type := mk {
  width : Q;
  height : Q
}.
End Resolution.

Module Voiceover.
Record t : Type := mk {
  sceneId : string;
  audioUrl : string
}.
End Voiceover.

Module Background.
Record t : Type := mk {
  sceneId : string;
  videoUrl : string
}.
End Background.

Module CaptionParams.
Record t : Type := mk {
  enabled : bool;
  style : string;
  position : string;
  fontSize : Q;
  fontFamily : string;
  animation : string
}.
End CaptionParams.

Module MusicParams.
Record t : Type := mk {
  enabled : bool;
  track : string;
  volume : Q
}.
End MusicParams.

Module VideoCompositionParams.
Record t : Type := mk {
  jobId : string;
  scenes : list VideoScene.t;
  voiceovers : list Voiceover.t;
  backgrounds : list Background.t;
  captions : CaptionParams.t;
  music : MusicParams.t;
  transitions : list string;
  effects : list string;
  outputFormat : string;
  resolution : Resolution.t
}.
End VideoCompositionParams.

Module Captions.
Record t : Type := mk {
  text : string;
  style : CaptionStyle.t;
  position : string;
  animation : string
}.
End Captions.

Module SceneConfig.
Record t : Type := mk {
  startTime : Q;
  endTime : Q;
  duration : Q;
  backgroundVideoUrl : string;
  backgroundInputIndex : option nat;
  voiceoverAudioUrl : string;
  voiceoverInputIndex : option nat;
  captions : option Captions.t;
  effects : list string;
  transition : string
}.

(** [scene.backgroundInputIndex = k]. *)
Definition setBackgroundInputIndex (k : nat) (s : t) : t :=
  mk (startTime s) (endTime s) (duration s) (backgroundVideoUrl s)
     (Some k) (voiceoverAudioUrl s) (voiceoverInputIndex s)
     (captions s) (effects s) (transition s).

(** [scene.voiceoverInputIndex = k]. *)
Definition setVoiceoverInputIndex (k : nat) (s : t) : t :=
  mk (startTime s) (endTime s) (duration s) (backgroundVideoUrl s)
     (backgroundInputIndex s) (voiceoverAudioUrl s) (Some k)
     (captions s) (effects s) (transition s).

(** The scene with another transition tag (used to compare commands). *)
Definition withTransition (tr : string) (s : t) : t :=
  mk (startTime s) (endTime s) (duration s) (backgroundVideoUrl s)
     (backgroundInputIndex s) (voiceoverAudioUrl s) (voiceoverInputIndex s)
     (captions s) (effects s) tr.
End SceneConfig.

Module CompositionConfig.
Record t : Type := mk {
  resolution : Resolution.t;
  outputFormat : string;
  scenes : list SceneConfig.t;
  globalEffects : list string;
  musicTrack : option string;
  musicVolume : Q;
  musicInputIndex : option nat
}.

Definition withScenes (l : list SceneConfig.t) (c : t) : t :=
  mk (resolution c) (outputFormat c) l (globalEffects c)
     (musicTrack c) (musicVolume c) (musicInputIndex c).

Definition withMusicInputIndex (k : option nat) (c : t) : t :=
  mk (resolution c) (outputFormat c) (scenes c) (globalEffects c)
     (musicTrack c) (musicVolume c) k.
End CompositionConfig.

Module TemplateMusic.
Record t : Type := mk {
  enabled : bool;
  defaultTrack : option string
}.
End TemplateMusic.

(** The fields of [TemplateConfig] that the builder reads. *)
Module TemplateConfig.
Record t : Type := mk {
  id : string;
  scenes : list SceneTemplate.t;
  captionStyle : string;
  transitions : option (list string);
  globalEffects : option (list string);
  music : option TemplateMusic.t
}.
End TemplateConfig.

(* ================================================================= *)
(** ** The caption style registry ([caption-styles.ts]) *)

Module CaptionStyles.
Local Open Scope Q_scope.

Definition modern : CaptionStyle.t :=
  CaptionStyle.mk "Montserrat" 52 800 "#FFFFFF"
    (Some "rgba(0, 0, 0, 0.7)") (Some "#000000") (Some 3)
    (Some (Shadow.mk 3 3 8 "rgba(0, 0, 0, 0.8)"))
    "word-by-word" "bottom" 900 20.

Definition styles : list (string * CaptionStyle.t) :=
  [ ("modern", modern);
    ("bold",
     CaptionStyle.mk "Impact" 64 900 "#FFFF00"
       None (Some "#000000") (Some 6)
       (Some (Shadow.mk 4 4 10 "rgba(0, 0, 0, 1)"))
       "word-by-word" "bottom" 950 15);
    ("minimal",
     CaptionStyle.mk "Helvetica" 44 600 "#FFFFFF"
       None None (Some 0)
       (Some (Shadow.mk 2 2 6 "rgba(0, 0, 0, 0.5)"))
       "word-by-word" "center" 800 25);
    ("neon",
     CaptionStyle.mk "Arial Black" 56 900 "#00FFFF"
       None (Some "#FF00FF") (Some 4)
       (Some (Shadow.mk 0 0 20 "rgba(0, 255, 255, 0.8)"))
       "word-by-word" "bottom" 900 20);
    ("retro",
     CaptionStyle.mk "Courier New" 48 700 "#FFD700"
       (Some "rgba(139, 69, 19, 0.8)") (Some "#8B4513") (Some 3)
       (Some (Shadow.mk 5 5 0 "rgba(0, 0, 0, 1)"))
       "letter-by-letter" "center" 850 30);
    ("handwritten",
     CaptionStyle.mk "Comic Sans MS" 50 700 "#333333"
       (Some "rgba(255, 255, 255, 0.9)") None (Some 0)
       (Some (Shadow.mk 2 2 4 "rgba(0, 0, 0, 0.3)"))
       "word-by-word" "bottom" 880 25);
    ("comic",
     CaptionStyle.mk "Bangers" 60 800 "#FF0000"
       None (Some "#000000") (Some 5)
       (Some (Shadow.mk 3 3 0 "rgba(255, 255, 0, 1)"))
       "word-by-word" "top" 920 15);
    ("elegant",
     CaptionStyle.mk "Playfair Display" 46 600 "#F5F5DC"
       (Some "rgba(0, 0, 0, 0.6)") None (Some 0)
       (Some (Shadow.mk 2 2 8 "rgba(0, 0, 0, 0.7)"))
       "line-by-line" "bottom" 850 30);
    ("grunge",
     CaptionStyle.mk "Impact" 58 900 "#CCCCCC"
       None (Some "#000000") (Some 4)
       (Some (Shadow.mk 6 6 2 "rgba(0, 0, 0, 0.9)"))
       "word-by-word" "bottom" 900 18);
    ("kawaii",
     CaptionStyle.mk "Rounded Mplus 1c" 54 800 "#FF69B4"
       None (Some "#FFFFFF") (Some 5)
       (Some (Shadow.mk 3 3 10 "rgba(255, 192, 203, 0.8)"))
       "word-by-word" "bottom" 880 22);
    ("alex-hormozi",
     CaptionStyle.mk "Arial Black" 72 900 "#FFFFFF"
       (Some "rgba(0, 0, 0, 0.85)") (Some "#FFD700") (Some 4)
       (Some (Shadow.mk 4 4 12 "rgba(0, 0, 0, 1)"))
       "word-by-word" "center" 950 25);
    ("mr-beast",
     CaptionStyle.mk "Impact" 68 900 "#FFFF00"
       None (Some "#000000") (Some 8)
       (Some (Shadow.mk 5 5 15 "rgba(255, 0, 0, 0.6)"))
       "word-by-word" "bottom" 940 20);
    ("vsauce",
     CaptionStyle.mk "Roboto" 50 700 "#FFFFFF"
       (Some "rgba(0, 0, 0, 0.75)") None (Some 0)
       (Some (Shadow.mk 3 3 8 "rgba(0, 0, 0, 0.8)"))
       "line-by-line" "bottom" 870 28) ].

(** [styles[styleName]]. *)
Fixpoint lookup (styleName : string) (l : list (string * CaptionStyle.t))
  : option CaptionStyle.t :=
  match l with
  | [] => None
  | (k, v) :: rest => if String.eqb k styleName then Some v else lookup styleName rest
  end.

(** [styles[styleName] || styles.modern]. *)
Definition getCaptionStyle (styleName : string) : CaptionStyle.t :=
  match lookup styleName styles with
  | Some s => s
  | None => modern
  end.

End CaptionStyles.

(* ================================================================= *)
(** ** The template engine: scenes with timing *)

Module TemplateEngine.

(** [calculateDuration]: 2.5 words per second, half a second of buffer,
    three seconds at least. *)
Definition calculateDuration (text : string) : Q :=
  let words := List.length (Js.splitSpaces text) in
  let baseDuration := (inject_Z (Z.of_nat words) / (5 # 2) + (1 # 2))%Q in
  Qmax baseDuration 3%Q.

(** The loop of [generateScenes] from index [i] on. *)
Fixpoint scenesFrom (scriptParts : list string) (i : nat)
    (sceneTemplates : list SceneTemplate.t) : list VideoScene.t :=
  match sceneTemplates with
  | [] => []
  | sceneTemplate :: rest =>
      let text := Js.orString (nth_error scriptParts i) EmptyString in
      VideoScene.mk
        ("scene_" ++ Js.natToString i)
        text
        (Js.orNum (SceneTemplate.duration sceneTemplate) (calculateDuration text))
        (SceneTemplate.type sceneTemplate)
        (SceneTemplate.animation sceneTemplate)
        (SceneTemplate.backgroundType sceneTemplate)
        (SceneTemplate.captionStyle sceneTemplate)
        (SceneTemplate.musicTrack sceneTemplate)
        (match SceneTemplate.effects sceneTemplate with
         | Some e => e
         | None => []
         end)
      :: scenesFrom scriptParts (S i) rest
  end.

Definition generateScenes (template : TemplateConfig.t) (script : string)
  : list VideoScene.t :=
  let scriptParts := Js.split Js.blankLine script in
  scenesFrom scriptParts 0 (TemplateConfig.scenes template).

(** The job's [duration]: [scenes.reduce((sum, s) => sum + s.duration, 0)]. *)
Definition totalDuration (scenes : list VideoScene.t) : Q :=
  fold_left (fun sum s => (sum + VideoScene.duration s)%Q) scenes 0%Q.

(** The parameters that the engine's [composeVideo] hands to the
    compositor. *)
Definition composeVideoParams (jobId : string) (scenes : list VideoScene.t)
    (voiceovers : list Voiceover.t) (backgrounds : list Background.t)
    (template : TemplateConfig.t) (outputFormat : string)
  : VideoCompositionParams.t :=
  VideoCompositionParams.mk
    jobId scenes voiceovers backgrounds
    (CaptionParams.mk true
       (Js.orString (Some (TemplateConfig.captionStyle template)) "modern")
       "bottom" 48%Q "Montserrat" "word-by-word")
    (MusicParams.mk
       (match TemplateConfig.music template with
        | Some m => TemplateMusic.enabled m
        | None => false
        end)
       (Js.orString
          (match TemplateConfig.music template with
           | Some m => TemplateMusic.defaultTrack m
           | None => None
           end) "upbeat_1")
       (3 # 10)%Q)
    (match TemplateConfig.transitions template with
     | Some l => l
     | None => []
     end)
    (match TemplateConfig.globalEffects template with
     | Some l => l
     | None => []
     end)
    outputFormat
    (Resolution.mk 1080%Q 1920%Q).

End TemplateEngine.

(* ================================================================= *)
(** ** The compositor: the composition configuration *)

Module Compositor.

(** The body of the loop of [buildCompositionConfig] for one scene. *)
Definition sceneConfigOf (params : VideoCompositionParams.t) (index : nat)
    (currentTimestamp : Q) (scene : VideoScene.t) : SceneConfig.t :=
  let voiceover :=
    Js.find (fun v => String.eqb (Voiceover.sceneId v) (VideoScene.id scene))
      (VideoCompositionParams.voiceovers params) in
  let background :=
    Js.find (fun b => String.eqb (Background.sceneId b) (VideoScene.id scene))
      (VideoCompositionParams.backgrounds params) in
  let captions := VideoCompositionParams.captions params in
  SceneConfig.mk
    currentTimestamp
    (currentTimestamp + VideoScene.duration scene)%Q
    (VideoScene.duration scene)
    (Js.orString (option_map Background.videoUrl background) EmptyString)
    None
    (Js.orString (option_map Voiceover.audioUrl voiceover) EmptyString)
    None
    (if CaptionParams.enabled captions
     then Some (Captions.mk
                  (VideoScene.text scene)
                  (CaptionStyles.getCaptionStyle (CaptionParams.style captions))
                  (CaptionParams.position captions)
                  (CaptionParams.animation captions))
     else None)
    (VideoScene.effects scene)
    (match nth_error (VideoCompositionParams.transitions params) index with
     | Some tr => tr
     | None => "cut"
     end).

(** The loop of [buildCompositionConfig]: [index] and [currentTimestamp]
    are its two counters. *)
Fixpoint buildScenes (params : VideoCompositionParams.t) (index : nat)
    (currentTimestamp : Q) (scenes : list VideoScene.t) : list SceneConfig.t :=
  match scenes with
  | [] => []
  | scene :: rest =>
      sceneConfigOf params index currentTimestamp scene
      :: buildScenes params (S index)
           (currentTimestamp + VideoScene.duration scene)%Q rest
  end.

Definition buildCompositionConfig (params : VideoCompositionParams.t)
  : CompositionConfig.t :=
  CompositionConfig.mk
    (VideoCompositionParams.resolution params)
    (VideoCompositionParams.outputFormat params)
    (buildScenes params 0 0%Q (VideoCompositionParams.scenes params))
    (VideoCompositionParams.effects params)
    (if MusicParams.enabled (VideoCompositionParams.music params)
     then Some (MusicParams.track (VideoCompositionParams.music params))
     else None)
    (MusicParams.volume (VideoCompositionParams.music params))
    None.

(* ----------------------------------------------------------------- *)
(** *** The stage builders *)

Section Stages.

(** [`${x}`] for a quantity. *)
Variable numToString : Q -> string.

(** The escaping of the caption text: four replacements in a row. *)
Definition escapeText (text : string) : string :=
  Js.replaceAll "]" "\]"
    (Js.replaceAll "[" "\["
       (Js.replaceAll ":" "\:"
          (Js.replaceAll "'" "\'" text))).

Definition positionCenter : string := "(w-text_w)/2:(h-text_h)/2".

(** The table [positions]. *)
Definition positions (key : string) : option string :=
  if String.eqb key "top" then Some "(w-text_w)/2:h*0.1"
  else if String.eqb key "center" then Some positionCenter
  else if String.eqb key "bottom" then Some "(w-text_w)/2:h*0.85"
  else None.

Definition buildCaptionFilter (captions : Captions.t) (sceneIndex : nat)
  : string :=
  let style := Captions.style captions in
  let escapedText := escapeText (Captions.text captions) in
  let position :=
    Js.orString (positions (Captions.position captions)) positionCenter in
  let filter := "[v" ++ Js.natToString sceneIndex ++ "_effects]drawtext=" in
  let filter := filter ++ "text='" ++ escapedText ++ "':" in
  let filter :=
    filter ++ "fontfile=/usr/share/fonts/"
           ++ CaptionStyle.fontFamily style ++ ".ttf:" in
  let filter :=
    filter ++ "fontsize=" ++ numToString (CaptionStyle.fontSize style) ++ ":" in
  let filter := filter ++ "fontcolor=" ++ CaptionStyle.color style ++ ":" in
  let filter := filter ++ "x=" ++ position ++ ":" in
  let filter :=
    filter ++ "borderw="
           ++ numToString (Js.orNum (CaptionStyle.strokeWidth style) 0%Q)
           ++ ":" in
  let filter :=
    filter ++ "bordercolor="
           ++ Js.orString (CaptionStyle.strokeColor style) "0x000000"
           ++ ":" in
  let filter :=
    match CaptionStyle.shadow style with
    | Some sh =>
        filter ++ "shadowx=" ++ numToString (Shadow.x sh) ++ ":"
               ++ "shadowy=" ++ numToString (Shadow.y sh) ++ ":"
               ++ "shadowcolor=" ++ Shadow.color sh ++ ":"
    | None => filter
    end in
  let filter :=
    if String.eqb (Captions.animation captions) "word-by-word"
    then filter ++ "enable='between(t,0," ++ Js.natToString 3 ++ ")':"
    else filter in
  filter ++ "[v" ++ Js.natToString sceneIndex ++ "_caption]".

(** What the [switch] of [buildEffectsFilter] appends for one tag. *)
Definition effectText (effect : string) : string :=
  if String.eqb effect "vignette" then "vignette=angle=PI/4:mode=forward,"
  else if String.eqb effect "chromatic-aberration" then "chromashift=crh=3:cbh=-3,"
  else if String.eqb effect "film-grain" then "noise=c0s=20:allf=t,"
  else if String.eqb effect "blur" then "boxblur=2:1,"
  else if String.eqb effect "sharpen" then "unsharp=5:5:1.0:5:5:0.0,"
  else if String.eqb effect "glow" then "gblur=sigma=10,"
  else if String.eqb effect "scanlines" then "interlace,"
  else EmptyString.

Definition buildEffectsFilter (effects : list string) (sceneIndex : nat)
  : string :=
  let filter := "[v" ++ Js.natToString sceneIndex ++ "_trimmed]" in
  let filter :=
    fold_left (fun filter effect => filter ++ effectText effect) effects filter in
  let filter := Js.dropFinalComma filter in
  filter ++ "[v" ++ Js.natToString sceneIndex ++ "_effects]".

(** What the [switch] of [buildGlobalEffectsFilter] appends for one tag. *)
Definition globalEffectText (effect : string) : string :=
  if String.eqb effect "color-grading"
  then "eq=contrast=1.1:brightness=0.05:saturation=1.2,"
  else if String.eqb effect "film-grain" then "noise=c0s=15:allf=t,"
  else if String.eqb effect "vignette" then "vignette=angle=PI/3,"
  else EmptyString.

Definition buildGlobalEffectsFilter (effects : list string) : string :=
  let filter := "[vout]" in
  let filter :=
    fold_left (fun filter effect => filter ++ globalEffectText effect)
      effects filter in
  let filter := Js.dropFinalComma filter in
  filter ++ "[vfinal]".

(** One entry of [transitionMap]. *)
Definition xfade (name : string) (duration : Q) : string :=
  "xfade=transition=" ++ name ++ ":duration=" ++ numToString duration
    ++ ":offset=" ++ numToString duration.

(** The table [transitionMap]. *)
Definition transitionMap (duration : Q) (key : string) : option string :=
  if String.eqb key "fade" then Some (xfade "fade" duration)
  else if String.eqb key "wipe" then Some (xfade "wipeleft" duration)
  else if String.eqb key "slide" then Some (xfade "slideleft" duration)
  else if String.eqb key "zoom" then Some (xfade "zoomin" duration)
  else if String.eqb key "spin" then Some (xfade "circleopen" duration)
  else if String.eqb key "blur" then Some (xfade "fadeblack" duration)
  else if String.eqb key "glitch" then Some (xfade "pixelize" duration)
  else None.

(** [buildTransitionFilter]; [duration] defaults to 0.5.  No function of
    the module calls it. *)
Definition buildTransitionFilter (transition : string) (scene1 scene2 : nat)
    (duration : option Q) : string :=
  let duration := match duration with Some d => d | None => (1 # 2)%Q end in
  let transitionFilter :=
    Js.orString (transitionMap duration transition) (xfade "fade" duration) in
  "[v" ++ Js.natToString scene1 ++ "][v" ++ Js.natToString scene2 ++ "]"
    ++ transitionFilter ++ "[v" ++ Js.natToString scene2 ++ "_trans]".

(* --------------------------------------------------------------- *)
(** *** The command compiler *)

(** First loop: one input per scene background; the scene receives the
    counter as its [backgroundInputIndex].  The result is the written
    scenes, the inputs pushed and the counter after the loop. *)
Fixpoint addBackgroundInputs (inputIndex : nat) (scenes : list SceneConfig.t)
  : list SceneConfig.t * list string * nat :=
  match scenes with
  | [] => ([], [], inputIndex)
  | scene :: rest =>
      let '(rest', inputs, k) := addBackgroundInputs (S inputIndex) rest in
      (SceneConfig.setBackgroundInputIndex inputIndex scene :: rest',
       ("-i " ++ Js.quoted (SceneConfig.backgroundVideoUrl scene)) :: inputs,
       k)
  end.

(** Second loop: one input per scene with a truthy voiceover URL; a scene
    without one keeps the [voiceoverInputIndex] it came with. *)
Fixpoint addVoiceoverInputs (inputIndex : nat) (scenes : list SceneConfig.t)
  : list SceneConfig.t * list string * nat :=
  match scenes with
  | [] => ([], [], inputIndex)
  | scene :: rest =>
      if Js.truthy (SceneConfig.voiceoverAudioUrl scene) then
        let '(rest', inputs, k) := addVoiceoverInputs (S inputIndex) rest in
        (SceneConfig.setVoiceoverInputIndex inputIndex scene :: rest',
         ("-i " ++ Js.quoted (SceneConfig.voiceoverAudioUrl scene)) :: inputs,
         k)
      else
        let '(rest', inputs, k) := addVoiceoverInputs inputIndex rest in
        (scene :: rest', inputs, k)
  end.

(** The music input: pushed when [config.musicTrack] is truthy. *)
Definition addMusicInput (inputIndex : nat) (config : CompositionConfig.t)
  : option nat * list string * nat :=
  match CompositionConfig.musicTrack config with
  | Some track =>
      if Js.truthy track
      then (Some inputIndex, ["-i " ++ Js.quoted track], S inputIndex)
      else (CompositionConfig.musicInputIndex config, [], inputIndex)
  | None => (CompositionConfig.musicInputIndex config, [], inputIndex)
  end.

(** The three input loops together: the configuration as written by
    them, and the list [inputs]. *)
Definition assignInputs (config : CompositionConfig.t)
  : CompositionConfig.t * list string :=
  let '(scenes1, inputs1, k1) :=
    addBackgroundInputs 0 (CompositionConfig.scenes config) in
  let '(scenes2, inputs2, k2) := addVoiceoverInputs k1 scenes1 in
  let '(music, inputs3, _) := addMusicInput k2 config in
  (CompositionConfig.withMusicInputIndex music
     (CompositionConfig.withScenes scenes2 config),
   app inputs1 (app inputs2 inputs3)).

(** The stages that the scene loop pushes on [filterComplex] for scene
    [i]. *)
Definition sceneStages (config : CompositionConfig.t) (i : nat)
    (scene : SceneConfig.t) : list string :=
  let width := numToString (Resolution.width (CompositionConfig.resolution config)) in
  let height := numToString (Resolution.height (CompositionConfig.resolution config)) in
  let n := Js.natToString i in
  let bgInput :=
    "[" ++ Js.indexToString (SceneConfig.backgroundInputIndex scene) ++ ":v]" in
  let scaleStage :=
    bgInput ++ "scale=" ++ width ++ ":" ++ height
      ++ ":force_original_aspect_ratio=increase,crop=" ++ width ++ ":" ++ height
      ++ "[bg" ++ n ++ "]" in
  let trimStage :=
    "[bg" ++ n ++ "]trim=duration=" ++ numToString (SceneConfig.duration scene)
      ++ ",setpts=PTS-STARTPTS[bg" ++ n ++ "_trimmed]" in
  let captionStages :=
    match SceneConfig.captions scene with
    | Some captions => [buildCaptionFilter captions i]
    | None => []
    end in
  let effectStages :=
    match SceneConfig.effects scene with
    | [] => []
    | _ :: _ => [buildEffectsFilter (SceneConfig.effects scene) i]
    end in
  let voiceStages :=
    match SceneConfig.voiceoverInputIndex scene with
    | Some k =>
        [ "[" ++ Js.natToString k ++ ":a]atrim=duration="
            ++ numToString (SceneConfig.duration scene)
            ++ ",asetpts=PTS-STARTPTS[audio" ++ n ++ "]" ]
    | None => []
    end in
  scaleStage :: trimStage
    :: app captionStages (app effectStages voiceStages).

(** What the scene loop pushes on [audioStreams] for scene [i]. *)
Definition sceneAudio (i : nat) (scene : SceneConfig.t) : list string :=
  match SceneConfig.voiceoverInputIndex scene with
  | Some _ => ["[audio" ++ Js.natToString i ++ "]"]
  | None => []
  end.

(** The scene loop from index [i] on: the stages and the audio streams
    it pushes. *)
Fixpoint processScenes (config : CompositionConfig.t) (i : nat)
    (scenes : list SceneConfig.t) : list string * list string :=
  match scenes with
  | [] => ([], [])
  | scene :: rest =>
      let '(stages, audio) := processScenes config (S i) rest in
      (app (sceneStages config i scene) stages,
       app (sceneAudio i scene) audio)
  end.

(** [audioStreams] after the scene loop. *)
Definition audioStreams (config : CompositionConfig.t) : list string :=
  snd (processScenes config 0 (CompositionConfig.scenes config)).

(** [config.scenes.map((_, i) => `[v${i}_final]`)]. *)
Definition videoLabels (config : CompositionConfig.t) : list string :=
  map (fun i => "[v" ++ Js.natToString i ++ "_final]")
    (seq 0 (List.length (CompositionConfig.scenes config))).

(** The video concatenation stage. *)
Definition videoConcatStage (config : CompositionConfig.t) : string :=
  let videoConcat := Js.join EmptyString (videoLabels config) in
  videoConcat ++ "concat=n="
    ++ Js.natToString (List.length (CompositionConfig.scenes config))
    ++ ":v=1:a=0[vout]".

(** The audio concatenation stage, pushed when [audioStreams] is not
    empty. *)
Definition audioConcatStages (config : CompositionConfig.t) : list string :=
  match audioStreams config with
  | [] => []
  | _ :: _ =>
      let audioConcat := Js.join EmptyString (audioStreams config) in
      [ audioConcat ++ "concat=n="
          ++ Js.natToString (List.length (audioStreams config))
          ++ ":v=0:a=1[aout]" ]
  end.

(** The music mix, or else the audio copy. *)
Definition musicStage (config : CompositionConfig.t) : string :=
  match CompositionConfig.musicTrack config,
        CompositionConfig.musicInputIndex config with
  | Some track, Some k =>
      if Js.truthy track
      then "[aout][" ++ Js.natToString k
             ++ ":a]amix=inputs=2:duration=first:weights=1 "
             ++ numToString (CompositionConfig.musicVolume config) ++ "[afinal]"
      else "[aout]acopy[afinal]"
  | _, _ => "[aout]acopy[afinal]"
  end.

(** The global effects stage, pushed when the list is not empty. *)
Definition globalStages (config : CompositionConfig.t) : list string :=
  match CompositionConfig.globalEffects config with
  | [] => []
  | _ :: _ => [buildGlobalEffectsFilter (CompositionConfig.globalEffects config)]
  end.

(** The list [filterComplex] when the command is assembled, for a
    configuration whose input indices are written. *)
Definition filterComplex (config : CompositionConfig.t) : list string :=
  app (fst (processScenes config 0 (CompositionConfig.scenes config)))
    (videoConcatStage config
     :: app (audioConcatStages config)
          (musicStage config :: globalStages config)).

(** The command, for a configuration whose input indices are written and
    the list [inputs]. *)
Definition commandOf (config : CompositionConfig.t) (inputs : list string)
  : string :=
  Js.join " "
    ("ffmpeg"
     :: app inputs
        [ "-filter_complex";
          Js.quoted (Js.join ";" (filterComplex config));
          "-map"; "[vout]";
          "-map"; "[afinal]";
          "-c:v"; "libx264";
          "-preset"; "medium";
          "-crf"; "23";
          "-c:a"; "aac";
          "-b:a"; "192k";
          "-movflags"; "+faststart";
          "-pix_fmt"; "yuv420p";
          "output." ++ CompositionConfig.outputFormat config ]).

(** [generateFFmpegCommand]: the command, and the configuration as the
    call leaves it. *)
Definition generateFFmpegCommand (config : CompositionConfig.t)
  : string * CompositionConfig.t :=
  let '(config', inputs) := assignInputs config in
  (commandOf config' inputs, config').

End Stages.

End Compositor.

(* ================================================================= *)
(** ** A decimal rendering of quantities, for the worked examples

    JavaScript prints a number by its shortest decimal numeral that reads
    back as the same number.  On a quantity with a short terminating decimal
    expansion (5, 0.5, 12.5, 1080) that numeral is the expansion itself,
    which is what [Decimal.numToString] produces.  The general theorems
    below hold for every rendering; only the worked examples use this one. *)

Module Decimal.

(** The digits of [r / d] after the point, [fuel] of them at most. *)
Fixpoint fraction (fuel : nat) (r d : Z) : string :=
  match fuel with
  | O => EmptyString
  | S fuel' =>
      if (r =? 0)%Z then EmptyString
      else Js.natToString (Z.to_nat ((r * 10) / d))
             ++ fraction fuel' ((r * 10) mod d)%Z d
  end.

Definition numToString (q : Q) : string :=
  let d := Zpos (Qden q) in
  let a := Z.abs (Qnum q) in
  (if (Qnum q <? 0)%Z then "-" else EmptyString)
    ++ Js.natToString (Z.to_nat (a / d))
    ++ (if (a mod d =? 0)%Z then EmptyString
        else "." ++ fraction 20 (a mod d)%Z d).

End Decimal.

(* ================================================================= *)
(** * Properties *)

Import Compositor.

(* ----------------------------------------------------------------- *)
(** ** The timeline of [buildCompositionConfig] *)

Section Timeline.

Variable params : VideoCompositionParams.t.

(** The running sum of the durations of [l] from [t] on, added in the
    order of the loop. *)
Definition elapsed (t : Q) (l : list VideoScene.t) : Q :=
  fold_left (fun sum s => (sum + VideoScene.duration s)%Q) l t.

Lemma totalDuration_elapsed (l : list VideoScene.t) :
  TemplateEngine.totalDuration l = elapsed 0%Q l.
Proof. reflexivity. Qed.

Lemma buildScenes_length (l : list VideoScene.t) :
  forall k t, List.length (buildScenes params k t l) = List.length l.
Proof.
  induction l as [|s l IH]; intros k t; simpl.
  - reflexivity.
  - now rewrite IH.
Qed.

(** Scene [i] of the loop's result is the loop body run on scene [i] with
    the two counters advanced over the scenes before it. *)
Lemma buildScenes_nth (l : list VideoScene.t) :
  forall k t i,
    nth_error (buildScenes params k t l) i =
    option_map (sceneConfigOf params (k + i) (elapsed t (firstn i l)))
               (nth_error l i).
Proof.
  induction l as [|s l IH]; intros k t i.
  - destruct i; reflexivity.
  - destruct i as [|i]; simpl.
    + now rewrite Nat.add_0_r.
    + rewrite IH. now rewrite Nat.add_succ_r.
Qed.

(** Each start is the end before it: the starts followed by the final
    counter are the initial counter followed by the ends. *)
Lemma buildScenes_chain (l : list VideoScene.t) :
  forall k t,
    (map SceneConfig.startTime (buildScenes params k t l) ++ [elapsed t l])%list =
    t :: map SceneConfig.endTime (buildScenes params k t l).
Proof.
  induction l as [|s l IH]; intros k t; simpl.
  - reflexivity.
  - f_equal. apply IH.
Qed.

End Timeline.

(** C1.  For every input of [buildCompositionConfig], scene [i] of the
    configuration starts at the sum of the durations of the scenes 0..i-1
    (added in scene order from 0) and ends at its start plus its own
    duration, which it keeps; there is one scene configuration per scene;
    the first scene starts at 0, every later scene starts where the one
    before it ends, and the last scene ends at the total duration, the sum
    of all scene durations that [processTemplate] reports. *)
Theorem buildCompositionConfig_timeline (params : VideoCompositionParams.t) :
  let scenes := VideoCompositionParams.scenes params in
  let built := CompositionConfig.scenes (buildCompositionConfig params) in
  List.length built = List.length scenes
  /\ (forall i,
        option_map SceneConfig.startTime (nth_error built i) =
        option_map (fun _ => TemplateEngine.totalDuration (firstn i scenes))
                   (nth_error scenes i))
  /\ (forall i,
        option_map (fun sc => (SceneConfig.endTime sc, SceneConfig.duration sc))
                   (nth_error built i) =
        option_map (fun s =>
                      ((TemplateEngine.totalDuration (firstn i scenes)
                        + VideoScene.duration s)%Q,
                       VideoScene.duration s))
                   (nth_error scenes i))
  /\ (map SceneConfig.startTime built
        ++ [TemplateEngine.totalDuration scenes])%list =
     0%Q :: map SceneConfig.endTime built.
Proof.
  intros scenes built. subst built. unfold buildCompositionConfig. simpl.
  fold scenes. repeat split.
  - apply buildScenes_length.
  - intro i. rewrite buildScenes_nth.
    destruct (nth_error scenes i); reflexivity.
  - intro i. rewrite buildScenes_nth.
    destruct (nth_error scenes i); reflexivity.
  - apply buildScenes_chain.
Qed.

(* ----------------------------------------------------------------- *)
(** ** The input loops of [generateFFmpegCommand] *)

Section Inputs.

(** The scene has a voiceover input of its own. *)
Definition hasVoiceover (scene : SceneConfig.t) : bool :=
  Js.truthy (SceneConfig.voiceoverAudioUrl scene).

(** The configuration has a music input. *)
Definition hasMusic (config : CompositionConfig.t) : bool :=
  match CompositionConfig.musicTrack config with
  | Some track => Js.truthy track
  | None => false
  end.

Definition backgroundInput (scene : SceneConfig.t) : string :=
  "-i " ++ Js.quoted (SceneConfig.backgroundVideoUrl scene).

Definition voiceoverInput (scene : SceneConfig.t) : string :=
  "-i " ++ Js.quoted (SceneConfig.voiceoverAudioUrl scene).

Arguments hasVoiceover : simpl never.

Lemma hasVoiceover_setBackground (k : nat) (s : SceneConfig.t) :
  hasVoiceover (SceneConfig.setBackgroundInputIndex k s) = hasVoiceover s.
Proof. reflexivity. Qed.

Lemma hasVoiceover_setVoiceover (k : nat) (s : SceneConfig.t) :
  hasVoiceover (SceneConfig.setVoiceoverInputIndex k s) = hasVoiceover s.
Proof. reflexivity. Qed.

(** The scenes as the first loop writes them. *)
Fixpoint writeBackgrounds (k : nat) (l : list SceneConfig.t) : list SceneConfig.t :=
  match l with
  | [] => []
  | s :: r => SceneConfig.setBackgroundInputIndex k s :: writeBackgrounds (S k) r
  end.

(** The scenes as the second loop writes them. *)
Fixpoint writeVoiceovers (k : nat) (l : list SceneConfig.t) : list SceneConfig.t :=
  match l with
  | [] => []
  | s :: r =>
      if hasVoiceover s
      then SceneConfig.setVoiceoverInputIndex k s :: writeVoiceovers (S k) r
      else s :: writeVoiceovers k r
  end.

(** Case analysis on whether scene [s] has a voiceover input. *)
Ltac voice_cases s :=
  simpl;
  rewrite ?hasVoiceover_setBackground, ?hasVoiceover_setVoiceover;
  change (Js.truthy (SceneConfig.voiceoverAudioUrl s)) with (hasVoiceover s);
  let E := fresh "E" in
  destruct (hasVoiceover s) eqn:E; simpl;
  rewrite ?hasVoiceover_setBackground, ?hasVoiceover_setVoiceover, ?E; simpl.

Lemma addBackgroundInputs_spec (l : list SceneConfig.t) :
  forall k,
    addBackgroundInputs k l =
    (writeBackgrounds k l, map backgroundInput l, k + List.length l).
Proof.
  induction l as [|s r IH]; intro k; simpl.
  - now rewrite Nat.add_0_r.
  - rewrite IH. now rewrite Nat.add_succ_r.
Qed.

Lemma addVoiceoverInputs_spec (l : list SceneConfig.t) :
  forall k,
    addVoiceoverInputs k l =
    (writeVoiceovers k l,
     map voiceoverInput (filter hasVoiceover l),
     k + List.length (filter hasVoiceover l)).
Proof.
  induction l as [|s r IH]; intro k.
  - simpl. now rewrite Nat.add_0_r.
  - voice_cases s; rewrite IH.
    + now rewrite Nat.add_succ_r.
    + reflexivity.
Qed.

Lemma writeBackgrounds_length (l : list SceneConfig.t) :
  forall k, List.length (writeBackgrounds k l) = List.length l.
Proof. induction l; intro k; simpl; congruence. Qed.

Lemma writeVoiceovers_length (l : list SceneConfig.t) :
  forall k, List.length (writeVoiceovers k l) = List.length l.
Proof.
  induction l as [|s r IH]; intro k; [reflexivity|].
  voice_cases s; now rewrite IH.
Qed.

(** The two loops write different fields: they commute. *)
Lemma writeBackgrounds_writeVoiceovers (l : list SceneConfig.t) :
  forall k j,
    writeBackgrounds k (writeVoiceovers j l) =
    writeVoiceovers j (writeBackgrounds k l).
Proof.
  induction l as [|s r IH]; intros k j; [reflexivity|].
  voice_cases s; now rewrite IH.
Qed.

Lemma writeBackgrounds_idem (l : list SceneConfig.t) :
  forall k, writeBackgrounds k (writeBackgrounds k l) = writeBackgrounds k l.
Proof.
  induction l as [|s r IH]; intro k; simpl; [reflexivity|].
  now rewrite IH.
Qed.

Lemma writeVoiceovers_idem (l : list SceneConfig.t) :
  forall k, writeVoiceovers k (writeVoiceovers k l) = writeVoiceovers k l.
Proof.
  induction l as [|s r IH]; intro k; [reflexivity|].
  voice_cases s; now rewrite IH.
Qed.

(** Neither loop changes a URL, so the inputs pushed are the same after
    either. *)
Lemma backgroundInput_writeBackgrounds (l : list SceneConfig.t) :
  forall k, map backgroundInput (writeBackgrounds k l) = map backgroundInput l.
Proof. induction l as [|s r IH]; intro k; simpl; [|rewrite IH]; reflexivity. Qed.

Lemma backgroundInput_writeVoiceovers (l : list SceneConfig.t) :
  forall k, map backgroundInput (writeVoiceovers k l) = map backgroundInput l.
Proof.
  induction l as [|s r IH]; intro k; [reflexivity|].
  voice_cases s; now rewrite IH.
Qed.

Lemma voiceovers_writeBackgrounds (l : list SceneConfig.t) :
  forall k,
    map voiceoverInput (filter hasVoiceover (writeBackgrounds k l)) =
    map voiceoverInput (filter hasVoiceover l).
Proof.
  induction l as [|s r IH]; intro k; [reflexivity|].
  voice_cases s; now rewrite IH.
Qed.

Lemma voiceovers_writeVoiceovers (l : list SceneConfig.t) :
  forall k,
    map voiceoverInput (filter hasVoiceover (writeVoiceovers k l)) =
    map voiceoverInput (filter hasVoiceover l).
Proof.
  induction l as [|s r IH]; intro k; [reflexivity|].
  voice_cases s; now rewrite IH.
Qed.

(** The indices the loops leave behind. *)
Lemma writeBackgrounds_indices (l : list SceneConfig.t) :
  forall k,
    map SceneConfig.backgroundInputIndex (writeBackgrounds k l) =
    map Some (seq k (List.length l)).
Proof. induction l as [|s r IH]; intro k; simpl; [|rewrite IH]; reflexivity. Qed.

Lemma writeVoiceovers_background (l : list SceneConfig.t) :
  forall k,
    map SceneConfig.backgroundInputIndex (writeVoiceovers k l) =
    map SceneConfig.backgroundInputIndex l.
Proof.
  induction l as [|s r IH]; intro k; [reflexivity|].
  voice_cases s; now rewrite IH.
Qed.

Lemma writeVoiceovers_indices (l : list SceneConfig.t) :
  forall k,
    map SceneConfig.voiceoverInputIndex
        (filter hasVoiceover (writeVoiceovers k l)) =
    map Some (seq k (List.length (filter hasVoiceover l))).
Proof.
  induction l as [|s r IH]; intro k; [reflexivity|].
  voice_cases s; now rewrite IH.
Qed.

(** [assignInputs] in closed form. *)
Definition writtenScenes (config : CompositionConfig.t) : list SceneConfig.t :=
  writeVoiceovers (List.length (CompositionConfig.scenes config))
    (writeBackgrounds 0 (CompositionConfig.scenes config)).

Definition voiceoverCount (config : CompositionConfig.t) : nat :=
  List.length (filter hasVoiceover (CompositionConfig.scenes config)).

Definition writtenMusic (config : CompositionConfig.t) : option nat :=
  if hasMusic config
  then Some (List.length (CompositionConfig.scenes config) + voiceoverCount config)
  else CompositionConfig.musicInputIndex config.

Definition musicInputs (config : CompositionConfig.t) : list string :=
  match CompositionConfig.musicTrack config with
  | Some track => if Js.truthy track then ["-i " ++ Js.quoted track] else []
  | None => []
  end.

Lemma assignInputs_spec (config : CompositionConfig.t) :
  assignInputs config =
  (CompositionConfig.withMusicInputIndex (writtenMusic config)
     (CompositionConfig.withScenes (writtenScenes config) config),
   app (map backgroundInput (CompositionConfig.scenes config))
     (app (map voiceoverInput
             (filter hasVoiceover (CompositionConfig.scenes config)))
          (musicInputs config))).
Proof.
  unfold assignInputs.
  rewrite addBackgroundInputs_spec, addVoiceoverInputs_spec.
  rewrite voiceovers_writeBackgrounds.
  assert (Hn : List.length (filter hasVoiceover
                 (writeBackgrounds 0 (CompositionConfig.scenes config)))
               = voiceoverCount config).
  { unfold voiceoverCount.
    rewrite <- (length_map voiceoverInput), voiceovers_writeBackgrounds.
    now rewrite length_map. }
  rewrite Hn. simpl.
  unfold addMusicInput, writtenMusic, hasMusic, musicInputs, writtenScenes.
  destruct (CompositionConfig.musicTrack config) as [track|];
    [destruct (Js.truthy track)|]; reflexivity.
Qed.

(** Running the loops on the configuration they have written changes
    nothing more, and pushes the same inputs. *)
Lemma assignInputs_idem (config : CompositionConfig.t) :
  assignInputs (fst (assignInputs config)) = assignInputs config.
Proof.
  rewrite (assignInputs_spec config). simpl.
  rewrite assignInputs_spec.
  destruct config as [res fmt scenes fx track vol mi]. simpl.
  unfold writtenScenes, writtenMusic, voiceoverCount, hasMusic, musicInputs.
  simpl.
  rewrite writeVoiceovers_length, writeBackgrounds_length.
  rewrite writeBackgrounds_writeVoiceovers, writeBackgrounds_idem,
    writeVoiceovers_idem.
  rewrite backgroundInput_writeVoiceovers, backgroundInput_writeBackgrounds.
  rewrite voiceovers_writeVoiceovers, voiceovers_writeBackgrounds.
  assert (Hn : List.length (filter hasVoiceover
                 (writeVoiceovers (List.length scenes)
                    (writeBackgrounds 0 scenes)))
               = List.length (filter hasVoiceover scenes)).
  { rewrite <- (length_map voiceoverInput), voiceovers_writeVoiceovers,
      voiceovers_writeBackgrounds.
    now rewrite length_map. }
  rewrite Hn.
  destruct track as [track|]; [destruct (Js.truthy track)|]; reflexivity.
Qed.

End Inputs.

(* ----------------------------------------------------------------- *)
(** ** Determinism of the command compiler *)

Lemma generateFFmpegCommand_spec (numToString : Q -> string)
    (config : CompositionConfig.t) :
  generateFFmpegCommand numToString config =
  (commandOf numToString (fst (assignInputs config)) (snd (assignInputs config)),
   fst (assignInputs config)).
Proof.
  unfold generateFFmpegCommand. now destruct (assignInputs config).
Qed.

(** C3.  The command compiler is deterministic, also through the input
    indices it writes into its argument: a second invocation on the
    configuration that the first one was given, and wrote to, yields the
    same command string and leaves the configuration as the first left it.
    The inputs are numbered in a fixed order: the backgrounds of all scenes
    first (scene [i] gets index [i]), then the voiceovers of the scenes that
    have one, in scene order, then the music track. *)
Theorem generateFFmpegCommand_deterministic (numToString : Q -> string)
    (config : CompositionConfig.t) :
  let first := generateFFmpegCommand numToString config in
  let again := generateFFmpegCommand numToString (snd first) in
  let scenes := CompositionConfig.scenes config in
  let n := List.length scenes in
  let v := List.length (filter hasVoiceover scenes) in
  fst again = fst first
  /\ snd again = snd first
  /\ snd (assignInputs config) =
     app (map backgroundInput scenes)
       (app (map voiceoverInput (filter hasVoiceover scenes))
            (musicInputs config))
  /\ map SceneConfig.backgroundInputIndex (CompositionConfig.scenes (snd first)) =
     map Some (seq 0 n)
  /\ map SceneConfig.voiceoverInputIndex
       (filter hasVoiceover (CompositionConfig.scenes (snd first))) =
     map Some (seq n v)
  /\ CompositionConfig.musicInputIndex (snd first) =
     (if hasMusic config then Some (n + v)
      else CompositionConfig.musicInputIndex config).
Proof.
  intros first again scenes n v. subst first again.
  rewrite !generateFFmpegCommand_spec. simpl.
  rewrite assignInputs_idem.
  rewrite assignInputs_spec. simpl.
  repeat split.
  - unfold writtenScenes.
    rewrite writeVoiceovers_background. apply writeBackgrounds_indices.
  - unfold writtenScenes. rewrite writeVoiceovers_indices.
    fold scenes. fold n.
    rewrite <- (length_map voiceoverInput), voiceovers_writeBackgrounds.
    now rewrite length_map.
Qed.

(* ----------------------------------------------------------------- *)
(** ** Facts about strings *)

Section Strings.

(** [t] occurs somewhere in [s]. *)
Fixpoint occursIn (t : string) (s : string) : bool :=
  prefix t s ||
  match s with
  | EmptyString => false
  | String _ s' => occursIn t s'
  end.

Lemma append_nil_r (s : string) : s ++ EmptyString = s.
Proof. induction s; simpl; congruence. Qed.

Lemma append_assoc (s t u : string) : (s ++ t) ++ u = s ++ (t ++ u).
Proof. induction s; simpl; congruence. Qed.

Lemma append_inv_head (p s t : string) : p ++ s = p ++ t -> s = t.
Proof.
  induction p as [|a p IH]; simpl; intro H.
  - exact H.
  - injection H as H. now apply IH.
Qed.

Lemma dropFinalComma_comma (s : string) :
  Js.dropFinalComma (s ++ ",") = s.
Proof.
  induction s as [|a s IH]; simpl.
  - reflexivity.
  - destruct (s ++ ",") eqn:E.
    + destruct s; discriminate.
    + now rewrite IH.
Qed.

Lemma dropFinalComma_other (s : string) (c : ascii) :
  Ascii.eqb c "," = false ->
  Js.dropFinalComma (s ++ String c EmptyString) = s ++ String c EmptyString.
Proof.
  intro Hc. induction s as [|a s IH]; simpl.
  - now rewrite Hc.
  - destruct (s ++ String c EmptyString) eqn:E.
    + destruct s; discriminate.
    + now rewrite IH.
Qed.

End Strings.

(* ----------------------------------------------------------------- *)
(** ** The effect chain of a scene *)

Section Effects.

(** The fixed parameterisation of a known effect tag; an unknown tag has
    none. *)
Definition knownEffect (effect : string) : option string :=
  if String.eqb effect "vignette" then Some "vignette=angle=PI/4:mode=forward"
  else if String.eqb effect "chromatic-aberration" then Some "chromashift=crh=3:cbh=-3"
  else if String.eqb effect "film-grain" then Some "noise=c0s=20:allf=t"
  else if String.eqb effect "blur" then Some "boxblur=2:1"
  else if String.eqb effect "sharpen" then Some "unsharp=5:5:1.0:5:5:0.0"
  else if String.eqb effect "glow" then Some "gblur=sigma=10"
  else if String.eqb effect "scanlines" then Some "interlace"
  else None.

(** The filters of the known tags of a list, in listed order. *)
Fixpoint effectChain (effects : list string) : list string :=
  match effects with
  | [] => []
  | e :: rest =>
      match knownEffect e with
      | Some f => f :: effectChain rest
      | None => effectChain rest
      end
  end.

(** Every filter followed by a comma. *)
Fixpoint commaTerminated (l : list string) : string :=
  match l with
  | [] => EmptyString
  | f :: rest => f ++ "," ++ commaTerminated rest
  end.

Lemma effectText_known (e : string) :
  effectText e =
  match knownEffect e with
  | Some f => f ++ ","
  | None => EmptyString
  end.
Proof.
  unfold effectText, knownEffect.
  repeat match goal with
         | |- context [String.eqb e ?t] => destruct (String.eqb e t)
         end; reflexivity.
Qed.

Lemma fold_effectText (effects : list string) :
  forall init,
    fold_left (fun filter effect => filter ++ effectText effect) effects init =
    init ++ commaTerminated (effectChain effects).
Proof.
  induction effects as [|e rest IH]; intro init; simpl.
  - now rewrite append_nil_r.
  - rewrite IH, effectText_known.
    destruct (knownEffect e) as [f|]; simpl.
    + now rewrite !append_assoc.
    + now rewrite append_nil_r.
Qed.

Lemma commaTerminated_join (f : string) (l : list string) :
  commaTerminated (f :: l) = Js.join "," (f :: l) ++ ",".
Proof.
  revert f. induction l as [|g l IH]; intro f.
  - reflexivity.
  - change (commaTerminated (f :: g :: l))
      with (f ++ "," ++ commaTerminated (g :: l)).
    rewrite IH.
    change (Js.join "," (f :: g :: l)) with (f ++ "," ++ Js.join "," (g :: l)).
    now rewrite !append_assoc.
Qed.

(** The effects stage is the comma-separated chain of the known tags, in
    listed order, between the scene's two labels. *)
Lemma buildEffectsFilter_chain (effects : list string) (sceneIndex : nat) :
  buildEffectsFilter effects sceneIndex =
  "[v" ++ Js.natToString sceneIndex ++ "_trimmed]"
    ++ Js.join "," (effectChain effects)
    ++ "[v" ++ Js.natToString sceneIndex ++ "_effects]".
Proof.
  unfold buildEffectsFilter. rewrite fold_effectText.
  destruct (effectChain effects) as [|f l].
  - simpl commaTerminated. rewrite append_nil_r.
    change ("[v" ++ Js.natToString sceneIndex ++ "_trimmed]")
      with ("[v" ++ Js.natToString sceneIndex ++ "_trimmed" ++ "]").
    rewrite <- !append_assoc.
    rewrite dropFinalComma_other by reflexivity.
    now rewrite !append_assoc.
  - rewrite commaTerminated_join.
    rewrite <- (append_assoc _ _ ","), dropFinalComma_comma.
    now rewrite !append_assoc.
Qed.

End Effects.

(** C10.  The effect tags of a scene are applied in listed order: the
    effects stage of [buildEffectsFilter] is the chain of the filters of the
    known tags, in the order of the list, each feeding the next (a comma
    chain); and the order matters: at every scene index the list
    [blur, sharpen] and the list [sharpen, blur] give different stage
    strings. *)
Theorem buildEffectsFilter_order :
  (forall effects sceneIndex,
      buildEffectsFilter effects sceneIndex =
      "[v" ++ Js.natToString sceneIndex ++ "_trimmed]"
        ++ Js.join "," (effectChain effects)
        ++ "[v" ++ Js.natToString sceneIndex ++ "_effects]")
  /\ (forall sceneIndex,
        buildEffectsFilter ["blur"; "sharpen"] sceneIndex =
        "[v" ++ Js.natToString sceneIndex ++ "_trimmed]"
          ++ "boxblur=2:1,unsharp=5:5:1.0:5:5:0.0"
          ++ "[v" ++ Js.natToString sceneIndex ++ "_effects]")
  /\ (forall sceneIndex,
        buildEffectsFilter ["blur"; "sharpen"] sceneIndex <>
        buildEffectsFilter ["sharpen"; "blur"] sceneIndex).
Proof.
  split; [exact buildEffectsFilter_chain|]. split.
  - intro i. now rewrite buildEffectsFilter_chain.
  - intros i H. rewrite !buildEffectsFilter_chain in H.
    simpl in H. injection H as H.
    apply append_inv_head in H. discriminate H.
Qed.

(* ----------------------------------------------------------------- *)
(** ** The escaping of caption text *)

Section Escaping.

Definition backslash : ascii := "\".

(** The four characters that the builder escapes. *)
Definition isSpecial (a : ascii) : bool :=
  Ascii.eqb a "'" || Ascii.eqb a ":" || Ascii.eqb a "[" || Ascii.eqb a "]".

(** The escaping as the specification words it: every occurrence of one
    of the four characters is prefixed with a backslash, every other
    character is copied. *)
Fixpoint escapeEach (s : string) : string :=
  match s with
  | EmptyString => EmptyString
  | String a s' =>
      if isSpecial a then String backslash (String a (escapeEach s'))
      else String a (escapeEach s')
  end.

(** The matching unescape: a backslash in front of one of the four
    characters is dropped. *)
Fixpoint unescape (s : string) : string :=
  match s with
  | EmptyString => EmptyString
  | String a s' =>
      if Ascii.eqb a backslash then
        match s' with
        | String b s'' =>
            if isSpecial b then String b (unescape s'')
            else String a (unescape s')
        | EmptyString => String a EmptyString
        end
      else String a (unescape s')
  end.

(** Every occurrence of one of the four characters stands right after a
    backslash; [prev] tells whether the character before is one. *)
Fixpoint guardedAfter (prev : bool) (s : string) : bool :=
  match s with
  | EmptyString => true
  | String a s' =>
      (negb (isSpecial a) || prev) && guardedAfter (Ascii.eqb a backslash) s'
  end.

Definition guarded (s : string) : bool := guardedAfter false s.

(** The reading of a quoted literal with the matching unescape: the text
    up to the first quote that is not escaped, and what follows that
    quote.  [None] when no such quote comes. *)
Fixpoint readLiteral (s : string) : option (string * string) :=
  match s with
  | EmptyString => None
  | String a s' =>
      if Ascii.eqb a "'" then Some (EmptyString, s')
      else if Ascii.eqb a backslash then
        match s' with
        | String b s'' =>
            if isSpecial b
            then option_map (fun r => (String b (fst r), snd r)) (readLiteral s'')
            else option_map (fun r => (String a (fst r), snd r)) (readLiteral s')
        | EmptyString => None
        end
      else option_map (fun r => (String a (fst r), snd r)) (readLiteral s')
  end.

(** The text ends with a backslash. *)
Fixpoint endsWithBackslash (s : string) : bool :=
  match s with
  | EmptyString => false
  | String a EmptyString => Ascii.eqb a backslash
  | String _ s' => endsWithBackslash s'
  end.

(** The reading of a quoted literal in which a backslash escapes nothing:
    the text up to the first quote, and what follows that quote. *)
Fixpoint readRaw (s : string) : option (string * string) :=
  match s with
  | EmptyString => None
  | String a s' =>
      if Ascii.eqb a "'" then Some (EmptyString, s')
      else option_map (fun r => (String a (fst r), snd r)) (readRaw s')
  end.

(** The four replacements of the builder on a text that starts with [a]. *)
Lemma escapeText_cons (a : ascii) (s : string) :
  escapeText (String a s) =
  if isSpecial a then String backslash (String a (escapeText s))
  else String a (escapeText s).
Proof.
  unfold escapeText, isSpecial. cbn [Js.replaceAll].
  destruct (Ascii.eqb a "'") eqn:E1.
  { apply Ascii.eqb_eq in E1. subst a. reflexivity. }
  cbn [Js.replaceAll].
  destruct (Ascii.eqb a ":") eqn:E2.
  { apply Ascii.eqb_eq in E2. subst a. reflexivity. }
  cbn [Js.replaceAll].
  destruct (Ascii.eqb a "[") eqn:E3.
  { apply Ascii.eqb_eq in E3. subst a. reflexivity. }
  cbn [Js.replaceAll].
  destruct (Ascii.eqb a "]") eqn:E4.
  { apply Ascii.eqb_eq in E4. subst a. reflexivity. }
  reflexivity.
Qed.

(** The builder's four replacements in a row are the one-pass escaping. *)
Lemma escapeText_escapeEach (s : string) : escapeText s = escapeEach s.
Proof.
  induction s as [|a s IH].
  - reflexivity.
  - rewrite escapeText_cons. simpl. now rewrite IH.
Qed.

Lemma isSpecial_backslash : isSpecial backslash = false.
Proof. reflexivity. Qed.

(** The escaped form never starts with one of the four characters. *)
Lemma escapeEach_head (a : ascii) (s r : string) :
  escapeEach s = String a r -> isSpecial a = false.
Proof.
  destruct s as [|b s]; simpl; [discriminate|].
  destruct (isSpecial b) eqn:E; intro H; injection H as <- _.
  - apply isSpecial_backslash.
  - exact E.
Qed.

(** The matching unescape recovers the text from its escaped form. *)
Lemma unescape_escapeEach (s : string) : unescape (escapeEach s) = s.
Proof.
  induction s as [|a s IH]; [reflexivity|].
  simpl. destruct (isSpecial a) eqn:E.
  - simpl. rewrite E. now rewrite IH.
  - cbn [unescape]. destruct (Ascii.eqb a backslash) eqn:B.
    + destruct (escapeEach s) as [|b r] eqn:Es.
      * destruct s as [|c s]; [reflexivity|].
        simpl in Es. destruct (isSpecial c); discriminate Es.
      * rewrite (escapeEach_head _ _ _ Es). now rewrite IH.
    + now rewrite IH.
Qed.

(** In the escaped form each of the four characters stands right after a
    backslash. *)
Lemma guardedAfter_escapeEach (s : string) :
  forall prev, guardedAfter prev (escapeEach s) = true.
Proof.
  induction s as [|a s IH]; intro prev; [reflexivity|].
  simpl. destruct (isSpecial a) eqn:E; simpl.
  - rewrite E. simpl. apply IH.
  - rewrite E. simpl. apply IH.
Qed.

(** Inside a stage, a text that does not end with a backslash is read
    back, and the reading stops at the quote that the builder wrote. *)
Lemma readLiteral_escapeEach (s rest : string) :
  endsWithBackslash s = false ->
  readLiteral (escapeEach s ++ String "'" rest) = Some (s, rest).
Proof.
  induction s as [|a s IH]; intro H; [reflexivity|].
  assert (Hs : endsWithBackslash s = false
               \/ (s = EmptyString /\ Ascii.eqb a backslash = false)).
  { destruct s as [|c s]; [right|left]; auto. }
  simpl. destruct (isSpecial a) eqn:E.
  - simpl. rewrite E.
    destruct Hs as [Hs|[-> _]].
    + rewrite (IH Hs). reflexivity.
    + reflexivity.
  - assert (Q : Ascii.eqb a "'" = false).
    { unfold isSpecial in E.
      destruct (Ascii.eqb a "'"); [discriminate E|reflexivity]. }
    cbn [append readLiteral]. rewrite Q.
    destruct (Ascii.eqb a backslash) eqn:B.
    + destruct Hs as [Hs|[_ Hb]]; [|discriminate Hb].
      destruct (escapeEach s) as [|b r] eqn:Es.
      * destruct s as [|c s]; [simpl in H; congruence|].
        simpl in Es. destruct (isSpecial c); discriminate Es.
      * cbn [append]. rewrite (escapeEach_head _ _ _ Es).
        change (String b (r ++ String "'" rest))
          with (String b r ++ String "'" rest).
        rewrite (IH Hs). reflexivity.
    + destruct Hs as [Hs|[-> _]].
      * rewrite (IH Hs). reflexivity.
      * reflexivity.
Qed.

End Escaping.

(** The caption stage opens its text literal right after the input label
    and closes it with the quote that follows the escaped text. *)
Lemma buildCaptionFilter_embeds (numToString : Q -> string)
    (captions : Captions.t) (sceneIndex : nat) :
  exists options,
    buildCaptionFilter numToString captions sceneIndex =
    "[v" ++ Js.natToString sceneIndex ++ "_effects]drawtext=text='"
      ++ escapeEach (Captions.text captions) ++ String "'" options.
Proof.
  unfold buildCaptionFilter. rewrite escapeText_escapeEach.
  destruct (CaptionStyle.shadow (Captions.style captions));
    destruct (String.eqb (Captions.animation captions) "word-by-word");
    eexists; rewrite !append_assoc; reflexivity.
Qed.

(** X1.  The escaping of the builder: each occurrence of one of the four
    characters is prefixed with a backslash and nothing else changes; the
    matching unescape recovers the text from the escaped form; in the
    escaped form none of the four characters stands without a backslash
    before it; and the text literal of the stage is read back, up to the
    quote the builder wrote, when the text does not end with a backslash. *)
Lemma escapeText_sound (text : string) :
  escapeText text = escapeEach text
  /\ unescape (escapeText text) = text
  /\ guarded (escapeText text) = true
  /\ (endsWithBackslash text = false ->
      forall options,
        readLiteral (escapeText text ++ String "'" options) = Some (text, options)).
Proof.
  rewrite escapeText_escapeEach. repeat split.
  - apply unescape_escapeEach.
  - apply guardedAfter_escapeEach.
  - intros H options. now apply readLiteral_escapeEach.
Qed.

(** C7, at a caption that ends with a backslash.  The builder copies the
    backslash as it is, so in the stage the quote that should close the
    text literal stands right after a backslash: read with the matching
    unescape, the literal does not end there, and what is read back is not
    the caption.  Nor does the other reading of the literal, in which a
    backslash escapes nothing, save the stage: it ends the literal of the
    caption [it's] at the quote of the caption.  (The inputs are the ones
    the template engine passes: style [modern], position [bottom],
    animation [word-by-word].) *)
Theorem buildCaptionFilter_trailing_backslash :
  let captions :=
    Captions.mk "a\" (CaptionStyles.getCaptionStyle "modern")
      "bottom" "word-by-word" in
  let options :=
    ":fontfile=/usr/share/fonts/Montserrat.ttf:fontsize=52:fontcolor=#FFFFFF:x=(w-text_w)/2:h*0.85:borderw=3:bordercolor=#000000:shadowx=3:shadowy=3:shadowcolor=rgba(0, 0, 0, 0.8):enable='between(t,0,3)':[v0_caption]" in
  escapeText "a\" = "a\"
  /\ buildCaptionFilter Decimal.numToString captions 0 =
     "[v0_effects]drawtext=text='" ++ "a\" ++ "'" ++ options
  /\ readLiteral ("a\" ++ "'" ++ options) =
     Some ("a':fontfile=/usr/share/fonts/Montserrat.ttf:fontsize=52:fontcolor=#FFFFFF:x=(w-text_w)/2:h*0.85:borderw=3:bordercolor=#000000:shadowx=3:shadowy=3:shadowcolor=rgba(0, 0, 0, 0.8):enable=",
           "between(t,0,3)':[v0_caption]")
  /\ readLiteral ("a\" ++ "'" ++ options) <> Some ("a\", options)
  /\ escapeText "it's" = "it\'s"
  /\ readRaw (escapeText "it's" ++ "'" ++ options) =
     Some ("it\", "s'" ++ options).
Proof.
  cbv zeta. repeat split; try (vm_compute; reflexivity).
  vm_compute. discriminate.
Qed.

(* ----------------------------------------------------------------- *)
(** ** The wiring of the filter graph *)

Section Wiring.

(** The labels that a stage reads: the bracketed names it starts with. *)
Fixpoint labelsAtStart (inLabel : bool) (cur : string) (s : string)
  : list string :=
  match s with
  | EmptyString => []
  | String a s' =>
      if inLabel then
        if Ascii.eqb a "]"
        then (cur ++ "]") :: labelsAtStart false EmptyString s'
        else labelsAtStart true (cur ++ String a EmptyString) s'
      else if Ascii.eqb a "[" then labelsAtStart true "[" s'
      else []
  end.

Definition consumed (stage : string) : list string :=
  labelsAtStart false EmptyString stage.

(** The label that a stage writes: the bracketed name it ends with. *)
Fixpoint labelAtEnd (cur : option string) (s : string) : option string :=
  match s with
  | EmptyString => None
  | String a s' =>
      if Ascii.eqb a "[" then labelAtEnd (Some "[") s'
      else if Ascii.eqb a "]" then
        match s' with
        | EmptyString => option_map (fun c => c ++ "]") cur
        | String _ _ => labelAtEnd None s'
        end
      else labelAtEnd (option_map (fun c => c ++ String a EmptyString) cur) s'
  end.

Definition produced (stage : string) : option string :=
  labelAtEnd None stage.

(** The stream labels that [n] inputs define. *)
Definition inputLabels (n : nat) : list string :=
  flat_map (fun k => [ "[" ++ Js.natToString k ++ ":v]";
                       "[" ++ Js.natToString k ++ ":a]" ])
           (seq 0 n).

Definition isDefined (defined : list string) (label : string) : bool :=
  existsb (String.eqb label) defined.

(** The labels that the stages read before anything has defined them,
    given the labels [defined] so far. *)
Fixpoint danglingFrom (defined : list string) (stages : list string)
  : list string :=
  match stages with
  | [] => []
  | stage :: rest =>
      app (filter (fun l => negb (isDefined defined l)) (consumed stage))
          (danglingFrom
             (match produced stage with
              | Some l => l :: defined
              | None => defined
              end) rest)
  end.

(** The labels of a filter graph that are read before an input or an
    earlier stage defines them; the graph is wired when there is none. *)
Definition dangling (inputs stages : list string) : list string :=
  danglingFrom (inputLabels (List.length inputs)) stages.

End Wiring.

(* ----------------------------------------------------------------- *)
(** ** A one-scene job, as the template engine submits it *)

Module OneScene.

Definition template : TemplateConfig.t :=
  TemplateConfig.mk "fact-001" [] "modern" None None None.

Definition scene : VideoScene.t :=
  VideoScene.mk "scene_0" "Hello" 5%Q "main" "none" "stock-footage"
    "modern" None [].

(** The parameters of the job, with the voiceovers that were resolved. *)
Definition params (voiceovers : list Voiceover.t) : VideoCompositionParams.t :=
  TemplateEngine.composeVideoParams "job_1" [scene] voiceovers
    [Background.mk "scene_0" "bg0.mp4"] template "mp4".

(** The configuration after the input loops, and the inputs. *)
Definition written (voiceovers : list Voiceover.t)
  : CompositionConfig.t * list string :=
  assignInputs (buildCompositionConfig (params voiceovers)).

Definition stages (voiceovers : list Voiceover.t) : list string :=
  filterComplex Decimal.numToString (fst (written voiceovers)).

End OneScene.

(** C2, on the one-scene job.  With a voiceover, the caption stage reads
    [v0_effects] and the video concatenation reads [v0_final]; neither an
    input nor an earlier stage defines either label (the trim stage writes
    [bg0_trimmed], the caption stage [v0_caption]).  Without a voiceover no
    stage writes [aout], and the audio copy that reads it is emitted all
    the same. *)
Theorem filterComplex_dangling_labels :
  OneScene.stages [Voiceover.mk "scene_0" "v0.mp3"] =
    [ "[0:v]scale=1080:1920:force_original_aspect_ratio=increase,crop=1080:1920[bg0]";
      "[bg0]trim=duration=5,setpts=PTS-STARTPTS[bg0_trimmed]";
      "[v0_effects]drawtext=text='Hello':fontfile=/usr/share/fonts/Montserrat.ttf:fontsize=52:fontcolor=#FFFFFF:x=(w-text_w)/2:h*0.85:borderw=3:bordercolor=#000000:shadowx=3:shadowy=3:shadowcolor=rgba(0, 0, 0, 0.8):enable='between(t,0,3)':[v0_caption]";
      "[1:a]atrim=duration=5,asetpts=PTS-STARTPTS[audio0]";
      "[v0_final]concat=n=1:v=1:a=0[vout]";
      "[audio0]concat=n=1:v=0:a=1[aout]";
      "[aout]acopy[afinal]" ]
  /\ dangling (snd (OneScene.written [Voiceover.mk "scene_0" "v0.mp3"]))
              (OneScene.stages [Voiceover.mk "scene_0" "v0.mp3"]) =
     ["[v0_effects]"; "[v0_final]"]
  /\ OneScene.stages [] =
    [ "[0:v]scale=1080:1920:force_original_aspect_ratio=increase,crop=1080:1920[bg0]";
      "[bg0]trim=duration=5,setpts=PTS-STARTPTS[bg0_trimmed]";
      "[v0_effects]drawtext=text='Hello':fontfile=/usr/share/fonts/Montserrat.ttf:fontsize=52:fontcolor=#FFFFFF:x=(w-text_w)/2:h*0.85:borderw=3:bordercolor=#000000:shadowx=3:shadowy=3:shadowcolor=rgba(0, 0, 0, 0.8):enable='between(t,0,3)':[v0_caption]";
      "[v0_final]concat=n=1:v=1:a=0[vout]";
      "[aout]acopy[afinal]" ]
  /\ dangling (snd (OneScene.written [])) (OneScene.stages []) =
     ["[v0_effects]"; "[v0_final]"; "[aout]"].
Proof.
  repeat split; vm_compute; reflexivity.
Qed.

(* ----------------------------------------------------------------- *)
(** ** Scene durations *)

Section Durations.

(** The number of whitespace-separated words of a text: its maximal runs
    of characters that are not whitespace.  [inWord] tells whether the
    character before belongs to a word. *)
Fixpoint countWordsFrom (inWord : bool) (s : string) : nat :=
  match s with
  | EmptyString => 0
  | String a s' =>
      if Js.isSpace a then countWordsFrom false s'
      else (if inWord then 0 else 1) + countWordsFrom true s'
  end.

Definition countWords (s : string) : nat := countWordsFrom false s.

(** The duration that the specification gives a text of [w] words:
    [max(3.0, w/2.5 + 0.5)]. *)
Definition spokenDuration (w : nat) : Q :=
  Qmax 3%Q (inject_Z (Z.of_nat w) / (5 # 2) + (1 # 2))%Q.






(** Scene [i] of [generateScenes]. *)
Lemma scenesFrom_nth (scriptParts : list string) (l : list SceneTemplate.t) :
  forall k i,
    option_map (fun s => (VideoScene.text s, VideoScene.duration s))
               (nth_error (TemplateEngine.scenesFrom scriptParts k l) i) =
    option_map (fun st =>
                  let text := Js.orString (nth_error scriptParts (k + i)) EmptyString in
                  (text,
                   Js.orNum (SceneTemplate.duration st)
                            (TemplateEngine.calculateDuration text)))
               (nth_error l i).
Proof.
  induction l as [|st l IH]; intros k i.
  - destruct i; reflexivity.
  - destruct i as [|i]; simpl.
    + now rewrite Nat.add_0_r.
    + rewrite IH. now rewrite Nat.add_succ_r.
Qed.

Lemma scenesFrom_length (scriptParts : list string) (l : list SceneTemplate.t) :
  forall k, List.length (TemplateEngine.scenesFrom scriptParts k l) = List.length l.
Proof. induction l as [|st l IH]; intro k; simpl; [|rewrite IH]; reflexivity. Qed.

(** X2.  An explicit positive duration of a scene template is the
    duration of its scene, whatever the script. *)
Lemma generateScenes_explicit_duration (template : TemplateConfig.t)
    (script : string) (i : nat) (st : SceneTemplate.t) (d : Q) :
  nth_error (TemplateConfig.scenes template) i = Some st ->
  SceneTemplate.duration st = Some d ->
  (0 < d)%Q ->
  option_map VideoScene.duration
    (nth_error (TemplateEngine.generateScenes template script) i) = Some d.
Proof.
  intros Hi Hd Hpos.
  pose proof (scenesFrom_nth (Js.split Js.blankLine script)
                (TemplateConfig.scenes template) 0 i) as H.
  rewrite Hi in H. simpl in H. rewrite Hd in H.
  unfold TemplateEngine.generateScenes.
  destruct (nth_error (TemplateEngine.scenesFrom _ _ _) i) as [s|];
  [|discriminate H].
simpl in H. injection H as _ H. simpl. f_equal. rewrite H.
  unfold Js.orNum, Js.truthyNum.
  assert (Hn : (Qnum d =? 0)%Z = false).
  { apply Z.eqb_neq. unfold Qlt in Hpos. simpl in Hpos. lia. }
  now rewrite Hn.
Qed.

End Durations.

(** A script whose second paragraph follows three line feeds: the
    separator is two of them, the third starts the paragraph. *)
Module ThreeLineFeeds.

Definition sceneTemplate (id type : string) : SceneTemplate.t :=
  SceneTemplate.mk id type None None "stock-footage" "fade-in" "modern" None None.

Definition template : TemplateConfig.t :=
  TemplateConfig.mk "story-001"
    [sceneTemplate "hook" "hook"; sceneTemplate "main" "main"]
    "modern" None None None.

Definition paragraph : string :=
  String Js.lf "one two three four five six seven".

Definition script : string := "Wait for it" ++ Js.blankLine ++ paragraph.

End ThreeLineFeeds.

(** C4, on a text that starts with whitespace.  The second scene of the
    script has seven words; the specification gives it
    [max(3, 7/2.5 + 0.5) = 3.3] seconds.  [calculateDuration] counts the
    pieces of [split(/\s+/)], and the empty piece before the leading line
    feed is one of them: it computes [8/2.5 + 0.5 = 3.7] seconds. *)
Theorem calculateDuration_leading_whitespace :
  map (fun s => (VideoScene.text s, VideoScene.duration s))
      (TemplateEngine.generateScenes ThreeLineFeeds.template ThreeLineFeeds.script) =
    [ ("Wait for it", 3%Q); (ThreeLineFeeds.paragraph, (37 # 10)%Q) ]
  /\ Js.splitSpaces ThreeLineFeeds.paragraph =
     [EmptyString; "one"; "two"; "three"; "four"; "five"; "six"; "seven"]
  /\ countWords ThreeLineFeeds.paragraph = 7
  /\ (spokenDuration 7 == 33 # 10)%Q
  /\ ~ (TemplateEngine.calculateDuration ThreeLineFeeds.paragraph ==
        spokenDuration (countWords ThreeLineFeeds.paragraph))%Q.
Proof.
  split; [vm_compute; reflexivity|].
  split; [vm_compute; reflexivity|].
  split; [vm_compute; reflexivity|].
  split; [vm_compute; reflexivity|].
  vm_compute. discriminate.
Qed.

(* ----------------------------------------------------------------- *)
(** ** Transitions *)

Section Transitions.

Variable numToString : Q -> string.

(** The scenes with other transition tags: scene [i] gets tag [i] of the
    list, or [cut] past its end. *)
Fixpoint setTransitions (tags : list string) (scenes : list SceneConfig.t)
  : list SceneConfig.t :=
  match scenes with
  | [] => []
  | s :: rest =>
      match tags with
      | [] => SceneConfig.withTransition "cut" s :: setTransitions [] rest
      | tr :: tags' => SceneConfig.withTransition tr s :: setTransitions tags' rest
      end
  end.

(** The configuration with other transition tags on its scenes. *)
Definition retagged (tags : list string) (config : CompositionConfig.t)
  : CompositionConfig.t :=
  CompositionConfig.withScenes
    (setTransitions tags (CompositionConfig.scenes config)) config.

(** The parameters with another list of transitions. *)
Definition paramsWithTransitions (transitions : list string)
    (params : VideoCompositionParams.t) : VideoCompositionParams.t :=
  VideoCompositionParams.mk
    (VideoCompositionParams.jobId params)
    (VideoCompositionParams.scenes params)
    (VideoCompositionParams.voiceovers params)
    (VideoCompositionParams.backgrounds params)
    (VideoCompositionParams.captions params)
    (VideoCompositionParams.music params)
    transitions
    (VideoCompositionParams.effects params)
    (VideoCompositionParams.outputFormat params)
    (VideoCompositionParams.resolution params).

(** The timing of a scene configuration. *)
Definition timing (sc : SceneConfig.t) : Q * Q * Q :=
  (SceneConfig.startTime sc, SceneConfig.endTime sc, SceneConfig.duration sc).

(** Case analysis on the tags, then on whether [s] has a voiceover. *)
Ltac tag_cases tags :=
  destruct tags as [|? ?]; simpl.

Lemma setTransitions_length (l : list SceneConfig.t) :
  forall tags, List.length (setTransitions tags l) = List.length l.
Proof.
  induction l as [|s r IH]; intro tags; [reflexivity|].
  tag_cases tags; now rewrite IH.
Qed.

Lemma writeBackgrounds_setTransitions (l : list SceneConfig.t) :
  forall tags k,
    writeBackgrounds k (setTransitions tags l) =
    setTransitions tags (writeBackgrounds k l).
Proof.
  induction l as [|s r IH]; intros tags k; [reflexivity|].
  tag_cases tags; now rewrite IH.
Qed.

Lemma writeVoiceovers_setTransitions (l : list SceneConfig.t) :
  forall tags k,
    writeVoiceovers k (setTransitions tags l) =
    setTransitions tags (writeVoiceovers k l).
Proof.
  induction l as [|s r IH]; intros tags k; [reflexivity|].
  tag_cases tags;
    change (hasVoiceover (SceneConfig.withTransition _ s)) with (hasVoiceover s);
    destruct (hasVoiceover s); simpl; now rewrite IH.
Qed.

Lemma backgroundInput_setTransitions (l : list SceneConfig.t) :
  forall tags,
    map backgroundInput (setTransitions tags l) = map backgroundInput l.
Proof.
  induction l as [|s r IH]; intro tags; [reflexivity|].
  tag_cases tags; now rewrite IH.
Qed.

Lemma voiceovers_setTransitions (l : list SceneConfig.t) :
  forall tags,
    map voiceoverInput (filter hasVoiceover (setTransitions tags l)) =
    map voiceoverInput (filter hasVoiceover l).
Proof.
  induction l as [|s r IH]; intro tags; [reflexivity|].
  tag_cases tags;
    change (hasVoiceover (SceneConfig.withTransition _ s)) with (hasVoiceover s);
    destruct (hasVoiceover s); simpl; now rewrite IH.
Qed.

(** The scene loop reads the resolution of the configuration and, of a
    scene, everything but its transition. *)
Lemma processScenes_setTransitions (c c' : CompositionConfig.t)
    (l : list SceneConfig.t) :
  CompositionConfig.resolution c' = CompositionConfig.resolution c ->
  forall tags i,
    processScenes numToString c' i (setTransitions tags l) =
    processScenes numToString c i l.
Proof.
  intro Hres. induction l as [|s r IH]; intros tags i; [reflexivity|].
  tag_cases tags; rewrite IH;
    unfold sceneStages, sceneAudio; simpl; now rewrite Hres.
Qed.

(** The timing of the scenes does not depend on the transitions. *)
Lemma buildScenes_timing (params : VideoCompositionParams.t)
    (transitions : list string) (l : list VideoScene.t) :
  forall k t,
    map timing (buildScenes (paramsWithTransitions transitions params) k t l) =
    map timing (buildScenes params k t l).
Proof.
  induction l as [|s r IH]; intros k t; simpl; [reflexivity|].
  now rewrite IH.
Qed.

(** The input loops commute with a change of the transition tags. *)
Lemma assignInputs_retagged (tags : list string) (config : CompositionConfig.t) :
  assignInputs (retagged tags config) =
  (retagged tags (fst (assignInputs config)), snd (assignInputs config)).
Proof.
  rewrite !assignInputs_spec.
  destruct config as [res fmt scenes fx track vol mi].
  unfold retagged, writtenScenes, writtenMusic, voiceoverCount, hasMusic,
    musicInputs. simpl.
  rewrite setTransitions_length.
  rewrite writeBackgrounds_setTransitions, writeVoiceovers_setTransitions.
  rewrite backgroundInput_setTransitions, voiceovers_setTransitions.
  assert (Hn : List.length (filter hasVoiceover (setTransitions tags scenes))
               = List.length (filter hasVoiceover scenes)).
  { rewrite <- (length_map voiceoverInput), voiceovers_setTransitions.
    now rewrite length_map. }
  now rewrite Hn.
Qed.

(** The command does not read the transition tags. *)
Lemma commandOf_retagged (tags : list string) (config : CompositionConfig.t)
    (inputs : list string) :
  commandOf numToString (retagged tags config) inputs =
  commandOf numToString config inputs.
Proof.
  unfold commandOf. f_equal. f_equal. f_equal. f_equal.
  - f_equal. f_equal.
    destruct config as [res fmt scenes fx track vol mi].
    unfold filterComplex, videoConcatStage, videoLabels, audioConcatStages,
      audioStreams, retagged, musicStage, globalStages. simpl.
    rewrite setTransitions_length.
    now rewrite (processScenes_setTransitions
                   (CompositionConfig.mk res fmt scenes fx track vol mi)).
Qed.

End Transitions.

(** Three scenes of 5, 8 and 4 seconds; the template asks for a fade after
    the second one. *)
Module FadeAfterSecond.

Definition scene (id : string) (duration : Q) : VideoScene.t :=
  VideoScene.mk id "Hello" duration "main" "none" "stock-footage" "modern"
    None [].

Definition scenes : list VideoScene.t :=
  [scene "scene_0" 5%Q; scene "scene_1" 8%Q; scene "scene_2" 4%Q].

Definition template : TemplateConfig.t :=
  TemplateConfig.mk "story-001" [] "modern" (Some ["cut"; "fade"]) None None.

Definition params : VideoCompositionParams.t :=
  TemplateEngine.composeVideoParams "job_1" scenes []
    [ Background.mk "scene_0" "bg0.mp4"; Background.mk "scene_1" "bg1.mp4";
      Background.mk "scene_2" "bg2.mp4" ]
    template "mp4".

Definition config : CompositionConfig.t := buildCompositionConfig params.

End FadeAfterSecond.

(** C5 as stated fails on the example of the specification: the second
    scene carries the tag [fade], yet no stage of the compiled graph is a
    timed transition, and the command has no [xfade] in it.  The builder
    [buildTransitionFilter], which the compiler does not call, would anchor
    the fade at offset 0.5, the duration of the transition, and not at
    12.5. *)
Lemma fade_is_not_compiled :
  map SceneConfig.transition (CompositionConfig.scenes FadeAfterSecond.config) =
    ["cut"; "fade"; "cut"]
  /\ existsb (occursIn "xfade")
       (filterComplex Decimal.numToString
          (fst (assignInputs FadeAfterSecond.config))) = false
  /\ occursIn "xfade"
       (fst (generateFFmpegCommand Decimal.numToString FadeAfterSecond.config)) = false
  /\ buildTransitionFilter Decimal.numToString "fade" 1 2 None =
     "[v1][v2]xfade=transition=fade:duration=0.5:offset=0.5[v2_trans]".
Proof.
  repeat split; vm_compute; reflexivity.
Qed.

(** C5, amended.  The command that [generateFFmpegCommand] compiles does
    not depend on the transition tags of the scenes: no transition stage is
    emitted.  Transitions never add to the runtime: the timing of the
    scenes that [buildCompositionConfig] computes does not depend on the
    transitions either, and scenes of 5, 8 and 4 seconds with a fade after
    the second one run 17 seconds in total, the third scene starting at
    13. *)
Theorem transitions_change_nothing :
  (forall numToString tags config,
      fst (generateFFmpegCommand numToString (retagged tags config)) =
      fst (generateFFmpegCommand numToString config))
  /\ (forall transitions params,
        map timing
          (CompositionConfig.scenes
             (buildCompositionConfig (paramsWithTransitions transitions params))) =
        map timing (CompositionConfig.scenes (buildCompositionConfig params)))
  /\ map timing (CompositionConfig.scenes FadeAfterSecond.config) =
     [ (0%Q, 5%Q, 5%Q); (5%Q, 13%Q, 8%Q); (13%Q, 17%Q, 4%Q) ]
  /\ TemplateEngine.totalDuration FadeAfterSecond.scenes = 17%Q.
Proof.
  repeat split.
  - intros numToString tags config.
    rewrite !generateFFmpegCommand_spec. simpl.
    rewrite assignInputs_retagged. simpl.
    apply commandOf_retagged.
  - intros transitions params. apply buildScenes_timing.
Qed.

(* ----------------------------------------------------------------- *)
(** ** The concatenation stages *)

Section Concatenation.

Variable numToString : Q -> string.

(** The scene carries a voiceover input index. *)
Definition hasVoiceoverIndex (s : SceneConfig.t) : bool :=
  match SceneConfig.voiceoverInputIndex s with
  | Some _ => true
  | None => false
  end.

(** The positions, counted from [i], of the scenes that satisfy [p]. *)
Fixpoint positionsFrom (p : SceneConfig.t -> bool) (i : nat)
    (l : list SceneConfig.t) : list nat :=
  match l with
  | [] => []
  | s :: rest =>
      if p s then i :: positionsFrom p (S i) rest
      else positionsFrom p (S i) rest
  end.

Definition audioLabel (i : nat) : string := "[audio" ++ Js.natToString i ++ "]".

Definition videoLabel (i : nat) : string := "[v" ++ Js.natToString i ++ "_final]".

Lemma positionsFrom_length (p : SceneConfig.t -> bool) (l : list SceneConfig.t) :
  forall i, List.length (positionsFrom p i l) = List.length (filter p l).
Proof.
  induction l as [|s r IH]; intro i; simpl; [reflexivity|].
  destruct (p s); simpl; now rewrite IH.
Qed.

(** The audio streams of the scene loop: one per scene that carries a
    voiceover input index, in scene order. *)
Lemma processScenes_audio (c : CompositionConfig.t) (l : list SceneConfig.t) :
  forall i,
    snd (processScenes numToString c i l) =
    map audioLabel (positionsFrom hasVoiceoverIndex i l).
Proof.
  induction l as [|s r IH]; intro i; simpl; [reflexivity|].
  specialize (IH (S i)).
  destruct (processScenes numToString c (S i) r) as [stages audio].
  simpl in *. rewrite IH.
  unfold sceneAudio, hasVoiceoverIndex.
  destruct (SceneConfig.voiceoverInputIndex s); reflexivity.
Qed.

(** After the second input loop, a scene that came without an index
    carries one exactly when it has a voiceover URL. *)
Lemma positions_writeVoiceovers (l : list SceneConfig.t) :
  Forall (fun s => SceneConfig.voiceoverInputIndex s = None) l ->
  forall k i,
    positionsFrom hasVoiceoverIndex i (writeVoiceovers k l) =
    positionsFrom hasVoiceover i l.
Proof.
  induction 1 as [|s r Hs _ IH]; intros k i; [reflexivity|].
  simpl. destruct (hasVoiceover s) eqn:E; simpl.
  - now rewrite IH.
  - unfold hasVoiceoverIndex at 1. rewrite Hs. apply IH.
Qed.

Lemma writeBackgrounds_no_voiceover_index (l : list SceneConfig.t) :
  Forall (fun s => SceneConfig.voiceoverInputIndex s = None) l ->
  forall k,
    Forall (fun s => SceneConfig.voiceoverInputIndex s = None)
           (writeBackgrounds k l).
Proof.
  induction 1 as [|s r Hs _ IH]; intro k; simpl; constructor; auto.
Qed.

Lemma positions_writeBackgrounds (l : list SceneConfig.t) :
  forall k i,
    positionsFrom hasVoiceover i (writeBackgrounds k l) =
    positionsFrom hasVoiceover i l.
Proof.
  induction l as [|s r IH]; intros k i; simpl; [reflexivity|].
  rewrite hasVoiceover_setBackground.
  destruct (hasVoiceover s); now rewrite IH.
Qed.

(** [buildCompositionConfig] leaves the input indices unset. *)
Lemma buildScenes_no_voiceover_index (params : VideoCompositionParams.t)
    (l : list VideoScene.t) :
  forall k t,
    Forall (fun s => SceneConfig.voiceoverInputIndex s = None)
           (buildScenes params k t l).
Proof.
  induction l as [|s r IH]; intros k t; simpl; constructor; auto.
Qed.

End Concatenation.

(** Two scenes, of which only the second has a voiceover. *)
Module SilentFirstScene.

Definition scenes : list VideoScene.t :=
  [ FadeAfterSecond.scene "scene_0" 5%Q; FadeAfterSecond.scene "scene_1" 8%Q ].

Definition params : VideoCompositionParams.t :=
  TemplateEngine.composeVideoParams "job_1" scenes
    [ Voiceover.mk "scene_1" "v1.mp3" ]
    [ Background.mk "scene_0" "bg0.mp4"; Background.mk "scene_1" "bg1.mp4" ]
    OneScene.template "mp4".

Definition written : CompositionConfig.t :=
  fst (assignInputs (buildCompositionConfig params)).

End SilentFirstScene.

(** C6 as stated fails when the first of two scenes has no voiceover: the
    audio concatenation has the one stream of the second scene, and no
    stage of the graph gives the five seconds of the first scene an audio
    segment. *)
Lemma silent_scene_adds_no_audio :
  List.length (CompositionConfig.scenes SilentFirstScene.written) = 2
  /\ map SceneConfig.voiceoverAudioUrl
       (CompositionConfig.scenes SilentFirstScene.written) =
     [EmptyString; "v1.mp3"]
  /\ videoConcatStage SilentFirstScene.written =
     "[v0_final][v1_final]concat=n=2:v=1:a=0[vout]"
  /\ audioStreams Decimal.numToString SilentFirstScene.written = ["[audio1]"]
  /\ filter (occursIn "audio")
       (filterComplex Decimal.numToString SilentFirstScene.written) =
     [ "[2:a]atrim=duration=8,asetpts=PTS-STARTPTS[audio1]";
       "[audio1]concat=n=1:v=0:a=1[aout]" ].
Proof.
  repeat split; vm_compute; reflexivity.
Qed.

(** C6, amended.  For every configuration with [n] scenes the video
    concatenation stage enumerates exactly the [n] streams
    [v0_final] ... [v(n-1)_final], with [n=] the number of scenes.  The
    audio concatenation enumerates one stream [audio(i)] for each scene [i]
    that carries a voiceover input index, in scene order, and nothing for
    any other scene: no silence is inserted.  For a configuration from
    [buildCompositionConfig] these are the scenes with a voiceover URL.
    The stage counts the streams it enumerates, and is emitted only when
    there is one. *)
Theorem concatenation_streams (numToString : Q -> string)
    (config : CompositionConfig.t) :
  let written := snd (generateFFmpegCommand numToString config) in
  let n := List.length (CompositionConfig.scenes config) in
  let audio := audioStreams numToString written in
  List.length (CompositionConfig.scenes written) = n
  /\ videoLabels written = map videoLabel (seq 0 n)
  /\ videoConcatStage written =
     Js.join EmptyString (map videoLabel (seq 0 n))
       ++ "concat=n=" ++ Js.natToString n ++ ":v=1:a=0[vout]"
  /\ audio =
     map audioLabel
       (positionsFrom hasVoiceoverIndex 0 (CompositionConfig.scenes written))
  /\ List.length audio =
     List.length (filter hasVoiceoverIndex (CompositionConfig.scenes written))
  /\ audioConcatStages numToString written =
     match audio with
     | [] => []
     | _ :: _ =>
         [ Js.join EmptyString audio ++ "concat=n="
             ++ Js.natToString (List.length audio) ++ ":v=0:a=1[aout]" ]
     end
  /\ (forall params,
        audioStreams numToString
          (snd (generateFFmpegCommand numToString (buildCompositionConfig params))) =
        map audioLabel
          (positionsFrom hasVoiceover 0
             (CompositionConfig.scenes (buildCompositionConfig params)))).
Proof.
  intros written n audio.
  assert (Hlen : List.length (CompositionConfig.scenes written) = n).
  { subst written n. rewrite generateFFmpegCommand_spec, assignInputs_spec.
    simpl. unfold writtenScenes.
    now rewrite writeVoiceovers_length, writeBackgrounds_length. }
  assert (Haudio : forall c,
             audioStreams numToString c =
             map audioLabel
               (positionsFrom hasVoiceoverIndex 0 (CompositionConfig.scenes c))).
  { intro c. unfold audioStreams. apply processScenes_audio. }
  split; [exact Hlen|].
  split; [unfold videoLabels; now rewrite Hlen|].
  split; [unfold videoConcatStage, videoLabels; now rewrite Hlen|].
  split; [apply Haudio|].
  split.
  { subst audio. rewrite Haudio, length_map. apply positionsFrom_length. }
  split; [reflexivity|].
  intro params. rewrite Haudio.
  rewrite generateFFmpegCommand_spec, assignInputs_spec. simpl.
  unfold writtenScenes. f_equal.
  rewrite positions_writeVoiceovers.
  - apply positions_writeBackgrounds.
  - apply writeBackgrounds_no_voiceover_index.
    apply buildScenes_no_voiceover_index.
Qed.

(* ----------------------------------------------------------------- *)
(** ** Missing media and arrays of different lengths *)

Section Missing.

Variable numToString : Q -> string.

(** The scene loop pushes two stages at least for every scene. *)
Lemma processScenes_stages (c : CompositionConfig.t) (l : list SceneConfig.t) :
  forall i,
    2 * List.length l <= List.length (fst (processScenes numToString c i l)).
Proof.
  induction l as [|s r IH]; intro i; [apply Nat.le_refl|].
  cbn [processScenes]. specialize (IH (S i)).
  destruct (processScenes numToString c (S i) r) as [stages audio].
  cbn [fst] in *. rewrite length_app.
  unfold sceneStages. cbn [List.length]. lia.
Qed.

(** The graph has the two stages of every scene, the concatenation and the
    audio stage at least. *)
Lemma filterComplex_size (c : CompositionConfig.t) :
  2 * List.length (CompositionConfig.scenes c) + 2
  <= List.length (filterComplex numToString c).
Proof.
  unfold filterComplex. rewrite length_app. cbn [List.length].
  rewrite length_app. cbn [List.length].
  pose proof (processScenes_stages c (CompositionConfig.scenes c) 0). lia.
Qed.

(** The input loops keep the number of scenes. *)
Lemma assignInputs_length (config : CompositionConfig.t) :
  List.length (CompositionConfig.scenes (fst (assignInputs config))) =
  List.length (CompositionConfig.scenes config).
Proof.
  rewrite assignInputs_spec. cbn [fst]. unfold writtenScenes. simpl.
  now rewrite writeVoiceovers_length, writeBackgrounds_length.
Qed.

(** The input of scene [i] is its background, whatever the URL. *)
Lemma assignInputs_background (config : CompositionConfig.t) (i : nat)
    (s : SceneConfig.t) :
  nth_error (CompositionConfig.scenes config) i = Some s ->
  nth_error (snd (assignInputs config)) i = Some (backgroundInput s).
Proof.
  intro H. rewrite assignInputs_spec. cbn [snd].
  rewrite nth_error_app1.
  - rewrite nth_error_map, H. reflexivity.
  - rewrite length_map. apply nth_error_Some. congruence.
Qed.

End Missing.

(** One scene, and no background resolved for it. *)
Module MissingBackground.

Definition params : VideoCompositionParams.t :=
  TemplateEngine.composeVideoParams "job_1" [OneScene.scene] [] []
    OneScene.template "mp4".

Definition config : CompositionConfig.t := buildCompositionConfig params.

End MissingBackground.

(** C8 as stated fails on a scene without a background: the builder gives
    it the empty URL, and the compiler returns a command, with the input
    [-i] of the empty URL and the stages of the scene. *)
Lemma missing_background_compiles :
  map SceneConfig.backgroundVideoUrl
      (CompositionConfig.scenes MissingBackground.config) = [EmptyString]
  /\ snd (assignInputs MissingBackground.config) = ["-i " ++ Js.quoted EmptyString]
  /\ firstn 2 (filterComplex Decimal.numToString
                 (fst (assignInputs MissingBackground.config))) =
     [ "[0:v]scale=1080:1920:force_original_aspect_ratio=increase,crop=1080:1920[bg0]";
       "[bg0]trim=duration=5,setpts=PTS-STARTPTS[bg0_trimmed]" ]
  /\ prefix ("ffmpeg -i " ++ Js.quoted EmptyString ++ " -filter_complex "
               ++ Js.dq ++ "[0:v]scale=")
       (fst (generateFFmpegCommand Decimal.numToString MissingBackground.config))
     = true.
Proof.
  repeat split; vm_compute; reflexivity.
Qed.

(** C8, amended.  A scene for which no background was resolved does not
    stop either function.  [buildCompositionConfig] gives the scene the
    empty background URL; [generateFFmpegCommand] then returns the command
    assembled from all inputs and stages, in which the input of that scene
    is [-i] of the empty URL, at the scene's position, and the graph has
    the stages of every scene. *)
Theorem missing_background_is_compiled (numToString : Q -> string)
    (params : VideoCompositionParams.t) (i : nat) (scene : VideoScene.t) :
  nth_error (VideoCompositionParams.scenes params) i = Some scene ->
  Js.find (fun b => String.eqb (Background.sceneId b) (VideoScene.id scene))
    (VideoCompositionParams.backgrounds params) = None ->
  let config := buildCompositionConfig params in
  let written := assignInputs config in
  option_map SceneConfig.backgroundVideoUrl
    (nth_error (CompositionConfig.scenes config) i) = Some EmptyString
  /\ nth_error (snd written) i = Some ("-i " ++ Js.quoted EmptyString)
  /\ generateFFmpegCommand numToString config =
     (commandOf numToString (fst written) (snd written), fst written)
  /\ 2 * List.length (VideoCompositionParams.scenes params) + 2
     <= List.length (filterComplex numToString (fst written)).
Proof.
  intros Hi Hbg config written.
  assert (Hsc : nth_error (CompositionConfig.scenes config) i =
                Some (sceneConfigOf params i
                        (elapsed 0%Q (firstn i (VideoCompositionParams.scenes params)))
                        scene)).
  { subst config. unfold buildCompositionConfig. cbn [CompositionConfig.scenes].
    rewrite buildScenes_nth, Hi. reflexivity. }
  assert (Hurl : SceneConfig.backgroundVideoUrl
                   (sceneConfigOf params i
                      (elapsed 0%Q (firstn i (VideoCompositionParams.scenes params)))
                      scene) = EmptyString).
  { unfold sceneConfigOf. cbn [SceneConfig.backgroundVideoUrl].
    rewrite Hbg. reflexivity. }
  split; [rewrite Hsc; cbn [option_map]; now rewrite Hurl|].
  split.
  { subst written. rewrite (assignInputs_background _ _ _ Hsc).
    unfold backgroundInput. now rewrite Hurl. }
  split; [apply generateFFmpegCommand_spec|].
  assert (Hn : List.length (CompositionConfig.scenes (fst written)) =
               List.length (VideoCompositionParams.scenes params)).
  { subst written config. rewrite assignInputs_length.
    unfold buildCompositionConfig. cbn [CompositionConfig.scenes].
    apply buildScenes_length. }
  rewrite <- Hn. apply filterComplex_size.
Qed.

(** The theorem at the scene of [MissingBackground]: the scene is there,
    no background has its id, and the conclusions hold. *)
Lemma missing_background_is_compiled_witness :
  nth_error (VideoCompositionParams.scenes MissingBackground.params) 0 =
    Some OneScene.scene
  /\ Js.find (fun b => String.eqb (Background.sceneId b)
                         (VideoScene.id OneScene.scene))
       (VideoCompositionParams.backgrounds MissingBackground.params) = None
  /\ option_map SceneConfig.backgroundVideoUrl
       (nth_error (CompositionConfig.scenes MissingBackground.config) 0) =
     Some EmptyString
  /\ nth_error (snd (assignInputs MissingBackground.config)) 0 =
     Some ("-i " ++ Js.quoted EmptyString).
Proof.
  split; [reflexivity|]. split; [reflexivity|].
  pose proof (missing_background_is_compiled Decimal.numToString
                MissingBackground.params 0 OneScene.scene
                eq_refl eq_refl) as H.
  cbv zeta in H. destruct H as [H1 [H2 _]].
  split; [exact H1|exact H2].
Defined.

(** Two scene templates, a script of one part, no voiceover and one
    background. *)
Module UnequalArrays.

Definition script : string := "Only one part".

Definition scenes : list VideoScene.t :=
  TemplateEngine.generateScenes ThreeLineFeeds.template script.

Definition voiceovers : list Voiceover.t := [].

Definition backgrounds : list Background.t :=
  [ Background.mk "scene_0" "bg0.mp4" ].

Definition params : VideoCompositionParams.t :=
  TemplateEngine.composeVideoParams "job_1" scenes voiceovers backgrounds
    ThreeLineFeeds.template "mp4".

Definition config : CompositionConfig.t := buildCompositionConfig params.

End UnequalArrays.

(** C9 as stated fails on arrays of lengths 2, 1, 1 and 0: the builder
    returns two scenes and two scene configurations, the missing text and
    the missing URLs being empty. *)
Lemma unequal_arrays_are_built :
  List.length (TemplateConfig.scenes ThreeLineFeeds.template) = 2
  /\ List.length (Js.split Js.blankLine UnequalArrays.script) = 1
  /\ List.length UnequalArrays.backgrounds = 1
  /\ List.length UnequalArrays.voiceovers = 0
  /\ map (fun s => (VideoScene.id s, VideoScene.text s, VideoScene.duration s))
       UnequalArrays.scenes =
     [ ("scene_0", "Only one part", 3%Q); ("scene_1", EmptyString, 3%Q) ]
  /\ map (fun sc => (SceneConfig.backgroundVideoUrl sc,
                     SceneConfig.voiceoverAudioUrl sc,
                     SceneConfig.startTime sc, SceneConfig.endTime sc))
       (CompositionConfig.scenes UnequalArrays.config) =
     [ ("bg0.mp4", EmptyString, 0%Q, 3%Q);
       (EmptyString, EmptyString, 3%Q, 6%Q) ].
Proof.
  repeat split; vm_compute; reflexivity.
Qed.

(** C9, amended.  Arrays of different lengths do not stop the builder.
    [generateScenes] returns one scene per scene template, whatever the
    number of parts of the script: scene [i] has part [i] as its text, and
    the empty text when there is no such part.  [buildCompositionConfig]
    returns one scene configuration per scene, whatever the numbers of
    voiceovers and backgrounds: a scene gets the URL of the first entry
    with its id, and the empty URL when there is none. *)
Theorem builder_accepts_any_lengths :
  (forall template script,
      List.length (TemplateEngine.generateScenes template script) =
      List.length (TemplateConfig.scenes template))
  /\ (forall template script i,
        option_map VideoScene.text
          (nth_error (TemplateEngine.generateScenes template script) i) =
        option_map (fun _ =>
                      match nth_error (Js.split Js.blankLine script) i with
                      | Some part => part
                      | None => EmptyString
                      end)
                   (nth_error (TemplateConfig.scenes template) i))
  /\ (forall params,
        List.length (CompositionConfig.scenes (buildCompositionConfig params)) =
        List.length (VideoCompositionParams.scenes params))
  /\ (forall params i,
        option_map (fun sc => (SceneConfig.backgroundVideoUrl sc,
                               SceneConfig.voiceoverAudioUrl sc))
          (nth_error (CompositionConfig.scenes (buildCompositionConfig params)) i) =
        option_map
          (fun scene =>
             (match Js.find (fun b => String.eqb (Background.sceneId b)
                                        (VideoScene.id scene))
                      (VideoCompositionParams.backgrounds params) with
              | Some b => Background.videoUrl b
              | None => EmptyString
              end,
              match Js.find (fun v => String.eqb (Voiceover.sceneId v)
                                        (VideoScene.id scene))
                      (VideoCompositionParams.voiceovers params) with
              | Some v => Voiceover.audioUrl v
              | None => EmptyString
              end))
          (nth_error (VideoCompositionParams.scenes params) i)).
Proof.
  split; [intros; apply scenesFrom_length|].
  split.
  { intros template script i.
    pose proof (scenesFrom_nth (Js.split Js.blankLine script)
                  (TemplateConfig.scenes template) 0 i) as H.
    unfold TemplateEngine.generateScenes.
    destruct (nth_error (TemplateEngine.scenesFrom _ _ _) i) as [s|];
      destruct (nth_error (TemplateConfig.scenes template) i) as [st|];
      try discriminate H; [|reflexivity].
    simpl in H. injection H as H _. simpl. f_equal. rewrite H.
    destruct (nth_error (Js.split Js.blankLine script) i) as [part|];
      [destruct part|]; reflexivity. }
  split; [intro params; apply buildScenes_length|].
  intros params i. unfold buildCompositionConfig.
  cbn [CompositionConfig.scenes]. rewrite buildScenes_nth.
  destruct (nth_error (VideoCompositionParams.scenes params) i) as [scene|];
    [|reflexivity].
  cbn [option_map]. f_equal. unfold sceneConfigOf.
  cbn [SceneConfig.backgroundVideoUrl SceneConfig.voiceoverAudioUrl].
  f_equal.
  - destruct (Js.find _ (VideoCompositionParams.backgrounds params)) as [b|];
      [|reflexivity].
    simpl. destruct (Background.videoUrl b); reflexivity.
  - destruct (Js.find _ (VideoCompositionParams.voiceovers params)) as [v|];
      [|reflexivity].
    simpl. destruct (Voiceover.audioUrl v); reflexivity.
Qed.

(* ----------------------------------------------------------------- *)
(** ** Worked instances of the duration lemmas *)

(** A scene template with an explicit duration of four seconds. *)
Module ExplicitDuration.

Definition sceneTemplate : SceneTemplate.t :=
  SceneTemplate.mk "hook" "hook" (Some 4%Q) None "stock-footage" "fade-in"
    "modern" None None.

Definition template : TemplateConfig.t :=
  TemplateConfig.mk "story-002" [sceneTemplate] "modern" None None None.

Definition script : string :=
  "a text long enough to be spoken for more than four seconds in all".

End ExplicitDuration.

(** The explicit duration of four seconds is kept, though the text alone
    would give more. *)
Lemma generateScenes_explicit_duration_witness :
  nth_error (TemplateConfig.scenes ExplicitDuration.template) 0 =
    Some ExplicitDuration.sceneTemplate
  /\ SceneTemplate.duration ExplicitDuration.sceneTemplate = Some 4%Q
  /\ (0 < 4)%Q
  /\ option_map VideoScene.duration
       (nth_error (TemplateEngine.generateScenes ExplicitDuration.template
                     ExplicitDuration.script) 0) = Some 4%Q.
Proof.
  split; [reflexivity|]. split; [reflexivity|]. split; [reflexivity|].
  apply (generateScenes_explicit_duration ExplicitDuration.template
           ExplicitDuration.script 0 ExplicitDuration.sceneTemplate 4%Q);
    reflexivity.
Defined.


(* ================================================================= *)
(** * The render job: submission and polling ([composeVideo])

    The compositor posts the configuration to the render service, then
    asks for the status of the job every five seconds, 120 times at most.
    The service is a parameter of the embedding: [post] is the outcome of
    the submission, [status k] the outcome of the status request number
    [k].  The waits between the requests are not modelled. *)

Module Render.

(** The outcome of an awaited call, and of [composeVideo] itself. *)
Inductive Completion (A : Type) : Type :=
| Resolved (a : A)
| Rejected (message : string).

Arguments Resolved {A} a.
Arguments Rejected {A} message.

(** The fields of [statusResponse.data] that the loop reads. *)
Record StatusData : Type := mkStatus {
  status : string;
  videoUrl : option string;
  error : option string
}.

Definition maxAttempts : nat := 120.

(** [`${x}`] for an optional string. *)
Definition optionToString (x : option string) : string :=
  match x with
  | Some s => s
  | None => "undefined"
  end.

(** The polling loop with [attempts] requests made and [fuel] attempts
    left ([fuel = maxAttempts - attempts]), entered with an empty
    [videoUrl].  The result is the outcome and the number of status
    requests made when it is reached. *)
Fixpoint pollFrom (statusOf : nat -> Completion StatusData)
    (attempts fuel : nat) : Completion string * nat :=
  match fuel with
  | O => (Rejected "Video composition timeout", attempts)
  | S fuel' =>
      match statusOf attempts with
      | Rejected message => (Rejected message, S attempts)
      | Resolved data =>
          if String.eqb (status data) "completed" then
            let url := Js.orString (videoUrl data) EmptyString in
            if Js.truthy url then (Resolved url, S attempts)
            else pollFrom statusOf (S attempts) fuel'
          else if String.eqb (status data) "failed" then
            (Rejected ("Video composition failed: " ++ optionToString (error data)),
             S attempts)
          else pollFrom statusOf (S attempts) fuel'
      end
  end.

(** [composeVideo]: the submission of the configuration, then the loop. *)
Definition composeVideo
    (post : string -> CompositionConfig.t -> Completion unit)
    (statusOf : nat -> Completion StatusData)
    (params : VideoCompositionParams.t) : Completion string * nat :=
  match post (VideoCompositionParams.jobId params)
             (Compositor.buildCompositionConfig params) with
  | Rejected message => (Rejected message, 0)
  | Resolved _ => pollFrom statusOf 0 maxAttempts
  end.

(** What a status response makes of the loop: [None] when the loop goes
    on, the outcome when it ends there. *)
Definition verdict (r : Completion StatusData) : option (Completion string) :=
  match r with
  | Rejected message => Some (Rejected message)
  | Resolved data =>
      if String.eqb (status data) "completed" then
        match videoUrl data with
        | Some url => if Js.truthy url then Some (Resolved url) else None
        | None => None
        end
      else if String.eqb (status data) "failed" then
        Some (Rejected ("Video composition failed: " ++ optionToString (error data)))
      else None
  end.

End Render.

Section Polling.

Import Render.

Variable statusOf : nat -> Completion StatusData.

(** One turn of the loop: it ends with the verdict of the response, or goes
    on with one more request made. *)
Lemma pollFrom_step (attempts fuel : nat) :
  pollFrom statusOf attempts (S fuel) =
  match verdict (statusOf attempts) with
  | Some outcome => (outcome, S attempts)
  | None => pollFrom statusOf (S attempts) fuel
  end.
Proof.
  cbn [pollFrom]. unfold verdict.
  destruct (statusOf attempts) as [data|message]; [|reflexivity].
  destruct (String.eqb (status data) "completed").
  - destruct (videoUrl data) as [url|]; [|reflexivity].
    cbn [Js.orString]. destruct url; reflexivity.
  - destruct (String.eqb (status data) "failed"); reflexivity.
Qed.

(** The loop never makes more requests than the attempts it has left. *)
Lemma pollFrom_requests (fuel : nat) :
  forall attempts,
    attempts <= snd (pollFrom statusOf attempts fuel) <= attempts + fuel.
Proof.
  induction fuel as [|fuel IH]; intro attempts.
  - cbn. lia.
  - rewrite pollFrom_step.
    destruct (verdict (statusOf attempts)); cbn [snd].
    + lia.
    + specialize (IH (S attempts)). lia.
Qed.

(** While the responses let the loop go on, it goes on. *)
Lemma pollFrom_skip (k : nat) :
  forall attempts fuel,
    (forall j, j < k -> verdict (statusOf (attempts + j)) = None) ->
    pollFrom statusOf attempts (k + fuel) = pollFrom statusOf (attempts + k) fuel.
Proof.
  induction k as [|k IH]; intros attempts fuel H.
  - now rewrite Nat.add_0_r.
  - cbn [Nat.add]. rewrite pollFrom_step.
    pose proof (H 0 (Nat.lt_0_succ k)) as H0. rewrite Nat.add_0_r in H0.
    rewrite H0, IH.
    + now rewrite Nat.add_succ_r.
    + intros j Hj. rewrite Nat.add_succ_l, <- Nat.add_succ_r.
      apply H. lia.
Qed.

End Polling.

(** X4.  The first status response that ends the loop decides the outcome
    of [composeVideo].  When the submission is accepted, the responses
    before request [k] (fewer than 120) all let the loop go on, and
    response [k] ends it, then the call ends with the verdict of response
    [k], after [k + 1] status requests: the URL of a [completed] response
    that carries a non-empty one, the error [Video composition failed: ...]
    of a [failed] response, or the rejection of the request itself. *)
Theorem composeVideo_first_verdict
    (post : string -> CompositionConfig.t -> Render.Completion unit)
    (statusOf : nat -> Render.Completion Render.StatusData)
    (params : VideoCompositionParams.t) (k : nat)
    (outcome : Render.Completion string) :
  post (VideoCompositionParams.jobId params) (buildCompositionConfig params)
    = Render.Resolved tt ->
  k < Render.maxAttempts ->
  (forall j, j < k -> Render.verdict (statusOf j) = None) ->
  Render.verdict (statusOf k) = Some outcome ->
  Render.composeVideo post statusOf params = (outcome, S k).
Proof.
  intros Hpost Hk Hbefore Hat. unfold Render.composeVideo. rewrite Hpost.
  replace Render.maxAttempts with (k + S (Render.maxAttempts - S k)) by lia.
  rewrite pollFrom_skip by (intros j Hj; apply Hbefore; exact Hj).
  cbn [Nat.add]. rewrite pollFrom_step, Hat. reflexivity.
Qed.

(** A service that answers [processing] twice, then [completed]. *)
Module ThirdPollCompletes.

Definition post (jobId : string) (config : CompositionConfig.t)
  : Render.Completion unit := Render.Resolved tt.

Definition statusOf (k : nat) : Render.Completion Render.StatusData :=
  if (k <? 2)%nat
  then Render.Resolved (Render.mkStatus "processing" None None)
  else Render.Resolved
         (Render.mkStatus "completed" (Some "https://cdn/job_1.mp4") None).

End ThirdPollCompletes.

Lemma composeVideo_first_verdict_witness :
  Render.composeVideo ThirdPollCompletes.post ThirdPollCompletes.statusOf
    MissingBackground.params =
  (Render.Resolved "https://cdn/job_1.mp4", 3).
Proof.
  apply (composeVideo_first_verdict ThirdPollCompletes.post
           ThirdPollCompletes.statusOf MissingBackground.params 2
           (Render.Resolved "https://cdn/job_1.mp4")).
  - reflexivity.
  - unfold Render.maxAttempts. lia.
  - intros j Hj. destruct j as [|[|j]]; [reflexivity|reflexivity|lia].
  - reflexivity.
Defined.

(** X5.  When the submission is accepted and none of the first 120 status
    responses ends the loop (each is neither [failed], nor rejected, nor
    [completed] with a non-empty URL), [composeVideo] fails with
    [Video composition timeout] after exactly 120 status requests.  A
    [completed] response without a URL counts as one that lets the loop go
    on. *)
Theorem composeVideo_timeout
    (post : string -> CompositionConfig.t -> Render.Completion unit)
    (statusOf : nat -> Render.Completion Render.StatusData)
    (params : VideoCompositionParams.t) :
  post (VideoCompositionParams.jobId params) (buildCompositionConfig params)
    = Render.Resolved tt ->
  (forall j, j < Render.maxAttempts -> Render.verdict (statusOf j) = None) ->
  Render.composeVideo post statusOf params =
  (Render.Rejected "Video composition timeout", Render.maxAttempts).
Proof.
  intros Hpost H. unfold Render.composeVideo. rewrite Hpost.
  replace Render.maxAttempts with (Render.maxAttempts + 0) at 1 by lia.
  rewrite pollFrom_skip by (intros j Hj; apply H; exact Hj).
  reflexivity.
Qed.

(** A service that reports [completed] every time, but never a URL. *)
Module CompletedWithoutUrl.

Definition statusOf (k : nat) : Render.Completion Render.StatusData :=
  Render.Resolved (Render.mkStatus "completed" None None).

End CompletedWithoutUrl.

Lemma composeVideo_timeout_witness :
  Render.composeVideo ThirdPollCompletes.post CompletedWithoutUrl.statusOf
    MissingBackground.params =
  (Render.Rejected "Video composition timeout", 120).
Proof.
  apply (composeVideo_timeout ThirdPollCompletes.post
           CompletedWithoutUrl.statusOf MissingBackground.params).
  - reflexivity.
  - intros j _. reflexivity.
Defined.

Section PollingSound.

Import Render.

Variable statusOf : nat -> Completion StatusData.

(** A URL that the loop returns comes from a [completed] response among
    the requests it made, and is not empty. *)
Lemma pollFrom_resolved (fuel : nat) :
  forall attempts url n,
    pollFrom statusOf attempts fuel = (Resolved url, n) ->
    url <> EmptyString
    /\ attempts < n <= attempts + fuel
    /\ exists data,
         statusOf (n - 1) = Resolved data
         /\ status data = "completed"
         /\ videoUrl data = Some url.
Proof.
  induction fuel as [|fuel IH]; intros attempts url n H.
  - discriminate H.
  - cbn [pollFrom] in H.
    destruct (statusOf attempts) as [data|message] eqn:Hs; [|discriminate H].
    destruct (String.eqb (status data) "completed") eqn:Hc.
    + destruct (videoUrl data) as [u|] eqn:Hu; cbn [Js.orString] in H.
      * destruct (Js.truthy u) eqn:Ht; cbn [Js.truthy] in H.
        -- rewrite Ht in H. injection H as <- <-.
           split; [intro E; subst u; discriminate Ht|].
           split; [lia|].
           exists data. cbn [Nat.sub]. rewrite Nat.sub_0_r, Hs.
           apply String.eqb_eq in Hc. auto.
        -- apply IH in H. destruct H as [H1 [H2 H3]].
           split; [exact H1|]. split; [lia|exact H3].
      * apply IH in H. destruct H as [H1 [H2 H3]].
        split; [exact H1|]. split; [lia|exact H3].
    + destruct (String.eqb (status data) "failed"); [discriminate H|].
      apply IH in H. destruct H as [H1 [H2 H3]].
      split; [exact H1|]. split; [lia|exact H3].
Qed.

End PollingSound.

(** X6.  [composeVideo] never makes more than 120 status requests, and
    makes none when the submission is rejected.  A URL that it returns is
    never empty: it is the URL of a [completed] status response, the last
    one requested. *)
Theorem composeVideo_bounded
    (post : string -> CompositionConfig.t -> Render.Completion unit)
    (statusOf : nat -> Render.Completion Render.StatusData)
    (params : VideoCompositionParams.t) :
  snd (Render.composeVideo post statusOf params) <= Render.maxAttempts
  /\ (forall message,
        post (VideoCompositionParams.jobId params) (buildCompositionConfig params)
          = Render.Rejected message ->
        Render.composeVideo post statusOf params = (Render.Rejected message, 0))
  /\ (forall url n,
        Render.composeVideo post statusOf params = (Render.Resolved url, n) ->
        url <> EmptyString
        /\ 0 < n
        /\ exists data,
             statusOf (n - 1) = Render.Resolved data
             /\ Render.status data = "completed"
             /\ Render.videoUrl data = Some url).
Proof.
  unfold Render.composeVideo.
  destruct (post _ _) as [[]|message].
  - split; [apply (pollFrom_requests statusOf Render.maxAttempts 0)|].
    split; [intros m H; discriminate H|].
    intros url n H. apply pollFrom_resolved in H.
    destruct H as [H1 [H2 H3]]. split; [exact H1|]. split; [lia|exact H3].
  - split; [cbn; lia|].
    split; [intros m H; injection H as <-; reflexivity|].
    intros url n H. discriminate H.
Qed.

(* ================================================================= *)
(** * The template registry of the engine

    [TemplateEngine.templates] is a [Map] from template ids to templates.
    A [Map] is embedded as the list of its entries in insertion order:
    [set] replaces the value of a key that is there, in place, and appends a
    new key; [values] lists the values in that order.  The registry reads
    two fields of a template, its [id] and its [category]; the type of
    templates is a parameter. *)

Module Engine.

Section Registry.

Variable Template : Type.
Variable templateId : Template -> string.
Variable templateCategory : Template -> string.

Definition Registry : Type := list (string * Template).

(** [new Map()]. *)
Definition empty : Registry := [].

(** [map.set(key, value)]. *)
Fixpoint mapSet (key : string) (value : Template) (m : Registry) : Registry :=
  match m with
  | [] => [(key, value)]
  | (k, v) :: rest =>
      if String.eqb k key then (key, value) :: rest
      else (k, v) :: mapSet key value rest
  end.

(** [map.get(key)]. *)
Fixpoint mapGet (key : string) (m : Registry) : option Template :=
  match m with
  | [] => None
  | (k, v) :: rest => if String.eqb k key then Some v else mapGet key rest
  end.

(** [Array.from(map.values())]. *)
Definition mapValues (m : Registry) : list Template := map snd m.

(** [registerTemplate]. *)
Definition registerTemplate (template : Template) (templates : Registry)
  : Registry :=
  mapSet (templateId template) template templates.

(** [getTemplatesByCategory]. *)
Definition getTemplatesByCategory (category : string) (templates : Registry)
  : list Template :=
  filter (fun t => String.eqb (templateCategory t) category)
         (mapValues templates).

(** The head of [processTemplate]: the lookup of the template, and the
    error when there is none.  [steps] stands for the rest of the method,
    run on the template that was found. *)
Definition processTemplate {Job : Type}
    (steps : Template -> Render.Completion Job)
    (templates : Registry) (templateId : string) : Render.Completion Job :=
  match mapGet templateId templates with
  | None => Render.Rejected ("Template " ++ templateId ++ " not found")
  | Some template => steps template
  end.

(** The registry after the registration of the templates of a list, in
    the order of the list. *)
Definition registered (l : list Template) : Registry :=
  fold_left (fun templates t => registerTemplate t templates) l empty.

End Registry.

End Engine.

Section RegistryFacts.

Variable Template : Type.
Variable templateId : Template -> string.
Variable templateCategory : Template -> string.

Local Abbreviation mapSet := (Engine.mapSet Template).
Local Abbreviation mapGet := (Engine.mapGet Template).
Local Abbreviation registered := (Engine.registered Template templateId).

Lemma mapGet_mapSet (key key' : string) (value : Template)
    (m : Engine.Registry Template) :
  mapGet key' (mapSet key value m) =
  if String.eqb key key' then Some value else mapGet key' m.
Proof.
  induction m as [|[k v] m IH]; cbn [Engine.mapSet Engine.mapGet].
  - reflexivity.
  - destruct (String.eqb k key) eqn:E; cbn [Engine.mapGet].
    + apply String.eqb_eq in E. subst k.
      destruct (String.eqb key key'); reflexivity.
    + rewrite IH. destruct (String.eqb key key') eqn:E'; [|reflexivity].
      apply String.eqb_eq in E'. subst key'. now rewrite E.
Qed.

(** [set] keeps the keys apart. *)
Lemma mapSet_keys (key : string) (value : Template)
    (m : Engine.Registry Template) :
  NoDup (map fst m) -> NoDup (map fst (mapSet key value m)).
Proof.
  induction m as [|[k v] m IH]; cbn [Engine.mapSet map fst]; intro H.
  - constructor; [intros []|constructor].
  - inversion H as [|? ? Hk Hm]; subst.
    destruct (String.eqb k key) eqn:E; cbn [map fst].
    + apply String.eqb_eq in E. subst k. now constructor.
    + constructor; [|now apply IH].
      intro Hin. apply Hk. clear - Hin E.
      induction m as [|[k' v'] m IH]; cbn [Engine.mapSet map fst] in *.
      * destruct Hin as [Hin|[]]. subst k. now rewrite String.eqb_refl in E.
      * destruct (String.eqb k' key) eqn:E'; cbn [map fst] in Hin.
        -- apply String.eqb_eq in E'. subst k'.
           destruct Hin as [Hin|Hin]; [|now right].
           subst k. now rewrite String.eqb_refl in E.
        -- destruct Hin as [Hin|Hin]; [now left|right; now apply IH].
Qed.

(** A value of the map is the value of its key. *)
Lemma mapGet_In (m : Engine.Registry Template) :
  NoDup (map fst m) ->
  forall k v, In (k, v) m <-> mapGet k m = Some v.
Proof.
  induction m as [|[k0 v0] m IH]; cbn [Engine.mapGet map fst]; intros H k v.
  - split; [intros []|discriminate].
  - inversion H as [|? ? Hk Hm]; subst.
    destruct (String.eqb k0 k) eqn:E.
    + apply String.eqb_eq in E. subst k0. split.
      * intros [Heq|Hin]; [now inversion Heq|].
        exfalso. apply Hk. now apply (in_map fst) in Hin.
      * intros [= ->]. now left.
    + split.
      * intros [Heq|Hin].
        -- inversion Heq; subst. now rewrite String.eqb_refl in E.
        -- now apply IH.
      * intro Hg. right. now apply IH.
Qed.

Lemma registered_snoc (l : list Template) (t : Template) :
  registered (l ++ [t]) =
  Engine.registerTemplate Template templateId t (registered l).
Proof. unfold Engine.registered. now rewrite fold_left_app. Qed.

Lemma registered_keys (l : list Template) : NoDup (map fst (registered l)).
Proof.
  induction l as [|t l IH] using rev_ind.
  - constructor.
  - rewrite registered_snoc. now apply mapSet_keys.
Qed.

(** The lookup finds the template registered last under the id. *)
Lemma registered_get (l : list Template) (key : string) :
  mapGet key (registered l) =
  find (fun t => String.eqb (templateId t) key) (rev l).
Proof.
  induction l as [|t l IH] using rev_ind.
  - reflexivity.
  - rewrite registered_snoc, rev_app_distr. cbn [rev app find].
    unfold Engine.registerTemplate. rewrite mapGet_mapSet, IH. reflexivity.
Qed.

(** Every entry is filed under the id of its template. *)
Lemma registered_ids (l : list Template) :
  Forall (fun entry => fst entry = templateId (snd entry)) (registered l).
Proof.
  induction l as [|t l IH] using rev_ind.
  - constructor.
  - rewrite registered_snoc. unfold Engine.registerTemplate.
    induction IH as [|[k v] m Hkv Hm IHm]; cbn [Engine.mapSet].
    + constructor; [reflexivity|constructor].
    + destruct (String.eqb k (templateId t)).
      * constructor; [reflexivity|assumption].
      * constructor; assumption.
Qed.

(** A selection from templates with distinct ids has distinct ids. *)
Lemma selection_ids_distinct (keep : Template -> bool) (ts : list Template)
    (Hts : NoDup (map templateId ts)) :
  NoDup (map templateId (filter keep ts)).
Proof.
  induction ts as [|t ts IH]; cbn [map filter]; [constructor|].
  apply NoDup_cons_iff in Hts. destruct Hts as [Ht Hts].
  destruct (keep t); cbn [map]; [|now apply IH].
  apply NoDup_cons; [|now apply IH].
  intro Hin. apply Ht. apply in_map_iff in Hin.
  destruct Hin as [x [Hx Hin]]. apply filter_In in Hin.
  apply in_map_iff. exists x. tauto.
Qed.

End RegistryFacts.

(** X7.  After any sequence of registrations, [processTemplate] runs on
    the template that was registered last under the id it is given, and
    fails with [Template <id> not found], without running any of its
    steps, when no template was registered under that id. *)
Theorem processTemplate_lookup (Template Job : Type)
    (templateId : Template -> string)
    (steps : Template -> Render.Completion Job)
    (l : list Template) (id : string) :
  Engine.processTemplate Template steps
    (Engine.registered Template templateId l) id =
  match find (fun t => String.eqb (templateId t) id) (rev l) with
  | Some template => steps template
  | None => Render.Rejected ("Template " ++ id ++ " not found")
  end.
Proof.
  unfold Engine.processTemplate. now rewrite registered_get.
Qed.

(** X8.  After any sequence of registrations, [getTemplatesByCategory]
    lists exactly the templates that the registry currently holds (each the
    last one registered under its id) and whose category is the one asked
    for; no id occurs twice in the list. *)
Theorem getTemplatesByCategory_current (Template : Type)
    (templateId templateCategory : Template -> string)
    (l : list Template) (category : string) :
  let templates := Engine.registered Template templateId l in
  let listed :=
    Engine.getTemplatesByCategory Template templateCategory category templates in
  (forall t,
      In t listed <->
      Engine.mapGet Template (templateId t) templates = Some t
      /\ templateCategory t = category)
  /\ NoDup (map templateId listed).
Proof.
  intros templates listed. subst listed templates.
  pose proof (registered_keys Template templateId l) as Hkeys.
  pose proof (registered_ids Template templateId l) as Hids.
  set (m := Engine.registered Template templateId l) in *.
  assert (Hmap : map templateId (Engine.mapValues Template m) = map fst m).
  { unfold Engine.mapValues. rewrite map_map. apply map_ext_Forall.
    eapply Forall_impl; [|exact Hids]. intros entry H. now rewrite H. }
  split.
  - intro t. unfold Engine.getTemplatesByCategory, Engine.mapValues.
    rewrite filter_In, String.eqb_eq, in_map_iff.
    rewrite <- (mapGet_In Template m Hkeys). split.
    + intros [[[k v] [Hv Hin]] Hc]. cbn [snd] in Hv. subst v.
      split; [|exact Hc].
      rewrite Forall_forall in Hids. specialize (Hids _ Hin).
      cbn [fst snd] in Hids. now subst k.
    + intros [Hin Hc]. split; [|exact Hc].
      exists (templateId t, t). auto.
  - unfold Engine.getTemplatesByCategory.
    apply selection_ids_distinct; [exact templateCategory|].
    now rewrite Hmap.
Qed.

(* ================================================================= *)
(** * The media of the scenes

    [synthesizeVoiceovers] and [generateBackgrounds] call an external
    service once per scene and keep the answers in scene order, each with
    the id of its scene.  The services are parameters: [synthesizeVoice]
    and [generateBackgroundVideo] give the URL that the call resolves to.
    The embedding covers the runs in which every call resolves. *)

Module Media.

Section Services.

(** [synthesizeVoice({ text, voiceId, speed, pitch })]. *)
Variable synthesizeVoice : string -> string -> Q -> Q -> string.

(** [generateBackgroundVideo({ type, style, duration, prompt })]. *)
Variable generateBackgroundVideo : string -> string -> Q -> string -> string.

Definition synthesizeVoiceovers (scenes : list VideoScene.t)
    (voiceId : option string) : list Voiceover.t :=
  map (fun scene =>
         Voiceover.mk (VideoScene.id scene)
           (synthesizeVoice (VideoScene.text scene)
              (Js.orString voiceId "default") 1%Q 1%Q))
      scenes.

Definition generateBackgrounds (scenes : list VideoScene.t)
    (backgroundStyle : option string) : list Background.t :=
  map (fun scene =>
         Background.mk (VideoScene.id scene)
           (generateBackgroundVideo (VideoScene.backgroundType scene)
              (Js.orString backgroundStyle "cinematic")
              (VideoScene.duration scene) (VideoScene.text scene)))
      scenes.

End Services.

End Media.

Section SceneIds.

(** The decimal numeral of an index reads back as the index. *)
Definition parseNat (s : string) : option nat :=
  option_map Nat.of_uint (NilZero.uint_of_string s).

Lemma parseNat_natToString (n : nat) : parseNat (Js.natToString n) = Some n.
Proof.
  unfold parseNat, Js.natToString.
  destruct (Nat.to_uint n) eqn:E;
    try (rewrite NilZero.usu by discriminate; cbn [option_map];
         rewrite <- E; now rewrite DecimalNat.Unsigned.of_to).
  rewrite NilZero.usu_nil. cbn [option_map].
  rewrite <- (DecimalNat.Unsigned.of_to n), E. reflexivity.
Qed.

Lemma natToString_inj (n m : nat) :
  Js.natToString n = Js.natToString m -> n = m.
Proof.
  intro H. apply (f_equal parseNat) in H.
  rewrite !parseNat_natToString in H. now injection H.
Qed.

(** The ids that [generateScenes] gives: [scene_k], [scene_(k+1)], ... *)
Lemma scenesFrom_ids (scriptParts : list string) (l : list SceneTemplate.t) :
  forall k,
    map VideoScene.id (TemplateEngine.scenesFrom scriptParts k l) =
    map (fun i => "scene_" ++ Js.natToString i) (seq k (List.length l)).
Proof.
  induction l as [|st l IH]; intro k; cbn [TemplateEngine.scenesFrom map
    List.length seq VideoScene.id]; [reflexivity|].
  now rewrite IH.
Qed.

(** No two scenes of [generateScenes] have the same id. *)
Lemma generateScenes_ids_distinct (template : TemplateConfig.t) (script : string) :
  NoDup (map VideoScene.id (TemplateEngine.generateScenes template script)).
Proof.
  unfold TemplateEngine.generateScenes. rewrite scenesFrom_ids.
  apply Injective_map_NoDup; [|apply seq_NoDup].
  intros i j H. apply append_inv_head in H. now apply natToString_inj.
Qed.

(** In a list of records made from items with distinct keys, the search
    for the key of an item finds the record made from it. *)
Lemma find_made_from {A B : Type} (key : A -> string) (make : A -> B)
    (keyOf : B -> string) (l : list A) (a : A) :
  (forall x, keyOf (make x) = key x) ->
  NoDup (map key l) ->
  In a l ->
  Js.find (fun b => String.eqb (keyOf b) (key a)) (map make l) = Some (make a).
Proof.
  intros Hkey. unfold Js.find.
  induction l as [|x l IH]; cbn [map find]; intros Hnd Hin; [destruct Hin|].
  inversion Hnd as [|? ? Hx Hl]; subst. rewrite Hkey.
  destruct (String.eqb (key x) (key a)) eqn:E.
  - destruct Hin as [->|Hin]; [reflexivity|].
    apply String.eqb_eq in E. exfalso. apply Hx. rewrite E.
    now apply in_map.
  - destruct Hin as [->|Hin]; [now rewrite String.eqb_refl in E|].
    now apply IH.
Qed.

Lemma orString_some_empty (u : string) : Js.orString (Some u) EmptyString = u.
Proof. destruct u; reflexivity. Qed.

(** The URLs of the scene configurations, scene by scene. *)
Lemma buildScenes_urls (params : VideoCompositionParams.t)
    (l : list VideoScene.t) :
  forall k t,
    map (fun sc => (SceneConfig.backgroundVideoUrl sc,
                    SceneConfig.voiceoverAudioUrl sc))
        (buildScenes params k t l) =
    map (fun scene =>
           (SceneConfig.backgroundVideoUrl (sceneConfigOf params 0 0%Q scene),
            SceneConfig.voiceoverAudioUrl (sceneConfigOf params 0 0%Q scene)))
        l.
Proof.
  induction l as [|s l IH]; intros k t; cbn [buildScenes map]; [reflexivity|].
  now rewrite IH.
Qed.

End SceneIds.

(** X9.  In the pipeline of the engine every scene gets its own media.
    For the scenes that [generateScenes] makes of any template and script,
    with the voiceovers of [synthesizeVoiceovers] and the backgrounds of
    [generateBackgrounds], [buildCompositionConfig] gives scene [i] the
    voiceover URL and the background URL that were resolved for scene [i]:
    the ids [scene_0], [scene_1], ... by which it searches are pairwise
    distinct. *)
Theorem pipeline_media_aligned
    (synthesizeVoice : string -> string -> Q -> Q -> string)
    (generateBackgroundVideo : string -> string -> Q -> string -> string)
    (template : TemplateConfig.t) (script jobId outputFormat : string)
    (voiceId backgroundStyle : option string) :
  let scenes := TemplateEngine.generateScenes template script in
  let voiceovers := Media.synthesizeVoiceovers synthesizeVoice scenes voiceId in
  let backgrounds :=
    Media.generateBackgrounds generateBackgroundVideo scenes backgroundStyle in
  let config :=
    buildCompositionConfig
      (TemplateEngine.composeVideoParams jobId scenes voiceovers backgrounds
         template outputFormat) in
  NoDup (map VideoScene.id scenes)
  /\ map (fun sc => (SceneConfig.backgroundVideoUrl sc,
                     SceneConfig.voiceoverAudioUrl sc))
       (CompositionConfig.scenes config) =
     map (fun scene =>
            (generateBackgroundVideo (VideoScene.backgroundType scene)
               (Js.orString backgroundStyle "cinematic")
               (VideoScene.duration scene) (VideoScene.text scene),
             synthesizeVoice (VideoScene.text scene)
               (Js.orString voiceId "default") 1%Q 1%Q))
         scenes.
Proof.
  intros scenes voiceovers backgrounds config.
  pose proof (generateScenes_ids_distinct template script) as Hnd.
  fold scenes in Hnd. split; [exact Hnd|].
  subst config. unfold buildCompositionConfig.
  cbn [CompositionConfig.scenes TemplateEngine.composeVideoParams
       VideoCompositionParams.scenes].
  rewrite buildScenes_urls. apply map_ext_in. intros scene Hin.
  unfold sceneConfigOf.
  cbn [SceneConfig.backgroundVideoUrl SceneConfig.voiceoverAudioUrl
       TemplateEngine.composeVideoParams VideoCompositionParams.voiceovers
       VideoCompositionParams.backgrounds].
  subst voiceovers backgrounds.
  unfold Media.synthesizeVoiceovers, Media.generateBackgrounds.
  rewrite (find_made_from VideoScene.id _ Background.sceneId scenes scene)
    by (auto; reflexivity).
  rewrite (find_made_from VideoScene.id _ Voiceover.sceneId scenes scene)
    by (auto; reflexivity).
  cbn [option_map Background.videoUrl Voiceover.audioUrl].
  now rewrite !orString_some_empty.
Qed.

(* ================================================================= *)
(** * The script of a template

    [buildScriptFromTemplate] and [buildPrompt] fill the placeholders
    [{{key}}] of a text with the user's inputs, one key after the other in
    the order of [Object.keys], each with
    [text.replace(new RegExp('{{key}}', 'g'), value)].  The inputs are
    embedded as the list of their entries in that order, the values being
    strings.  The replacement below is the literal one: it is what the
    regular expression does for a key that starts with a letter or an
    underscore and goes on with letters, digits and underscores (the braces
    around it are then read as characters) and a value without [$]. *)

Module Script.

(** The replacement of every occurrence of [pattern], found from left to
    right; [skip] counts the characters of a found occurrence still to be
    passed. *)
Fixpoint replaceFrom (pattern value : string) (skip : nat) (s : string)
  : string :=
  match s with
  | EmptyString => EmptyString
  | String a s' =>
      match skip with
      | S k => replaceFrom pattern value k s'
      | O =>
          if prefix pattern s
          then value ++ replaceFrom pattern value (String.length pattern - 1) s'
          else String a (replaceFrom pattern value 0 s')
      end
  end.

Definition placeholder (key : string) : string := "{{" ++ key ++ "}}".

(** The loop over the keys of the inputs. *)
Definition substitute (userInputs : list (string * string)) (text : string)
  : string :=
  fold_left (fun text input =>
               replaceFrom (placeholder (fst input)) (snd input) 0 text)
            userInputs text.

(** [buildPrompt], on the prompt template of the script logic. *)
Definition buildPrompt (promptTemplate : option string)
    (userInputs : list (string * string)) : string :=
  substitute userInputs (Js.orString promptTemplate EmptyString).

(** The parts that [buildScriptFromTemplate] pushes, one per scene. *)
Definition scriptParts (template : TemplateConfig.t)
    (userInputs : list (string * string)) : list string :=
  map (fun scene =>
         substitute userInputs
           (Js.orString (SceneTemplate.textTemplate scene) EmptyString))
      (TemplateConfig.scenes template).

Definition buildScriptFromTemplate (template : TemplateConfig.t)
    (userInputs : list (string * string)) : string :=
  Js.join Js.blankLine (scriptParts template userInputs).

(** A key that the regular expression reads literally. *)
Definition isWordChar (a : ascii) : bool :=
  let n := nat_of_ascii a in
  ((65 <=? n)%nat && (n <=? 90)%nat) || ((97 <=? n)%nat && (n <=? 122)%nat)
  || ((48 <=? n)%nat && (n <=? 57)%nat) || (n =? 95)%nat.

Definition isDigit (a : ascii) : bool :=
  let n := nat_of_ascii a in (48 <=? n)%nat && (n <=? 57)%nat.

Fixpoint allWordChars (s : string) : bool :=
  match s with
  | EmptyString => true
  | String a s' => isWordChar a && allWordChars s'
  end.

Definition plainKey (key : string) : bool :=
  match key with
  | EmptyString => false
  | String a _ => negb (isDigit a) && allWordChars key
  end.

(** A value that the replacement copies as it is. *)
Fixpoint plainValue (value : string) : bool :=
  match value with
  | EmptyString => true
  | String a value' => negb (Ascii.eqb a "$") && plainValue value'
  end.

Definition plainInput (input : string * string) : bool :=
  plainKey (fst input) && plainValue (snd input).

(** The text has no two line feeds in a row and does not end with one;
    [afterLf] tells whether the character before is a line feed. *)
Fixpoint cleanFrom (afterLf : bool) (s : string) : bool :=
  match s with
  | EmptyString => negb afterLf
  | String a s' =>
      negb (afterLf && Ascii.eqb a Js.lf) && cleanFrom (Ascii.eqb a Js.lf) s'
  end.

Definition clean (s : string) : bool := cleanFrom false s.

End Script.

Section ScriptRoundTrip.

Lemma prefix_blankLine (a : ascii) (s : string) :
  prefix Js.blankLine (String a s) =
  Ascii.eqb a Js.lf &&
  match s with
  | EmptyString => false
  | String b _ => Ascii.eqb b Js.lf
  end.
Proof.
  unfold Js.blankLine. cbn [prefix].
  destruct (ascii_dec Js.lf a) as [<-|Ha].
  - rewrite Ascii.eqb_refl. cbn [andb].
    destruct s as [|b s]; [reflexivity|]. cbn [prefix].
    destruct (ascii_dec Js.lf b) as [<-|Hb].
    + rewrite Ascii.eqb_refl. now destruct s.
    + symmetry. apply Ascii.eqb_neq. congruence.
  - assert (E : Ascii.eqb a Js.lf = false) by (apply Ascii.eqb_neq; congruence).
    now rewrite E.
Qed.

(** After a line feed, a clean text starts with another character. *)
Lemma cleanFrom_after_lf (s tail : string) :
  Script.cleanFrom true s = true ->
  match s ++ tail with
  | EmptyString => false
  | String b _ => Ascii.eqb b Js.lf
  end = false.
Proof.
  destruct s as [|b s]; cbn [Script.cleanFrom append]; [discriminate|].
  cbn [andb]. destruct (Ascii.eqb b Js.lf); [discriminate|reflexivity].
Qed.

(** The split passes a clean part and cuts at the separator after it. *)
Lemma splitFrom_clean_part (part : string) :
  forall afterLf cur tail,
    Script.cleanFrom afterLf part = true ->
    Js.splitFrom Js.blankLine 0 cur (part ++ Js.blankLine ++ tail) =
    (cur ++ part) :: Js.splitFrom Js.blankLine 0 EmptyString tail.
Proof.
  induction part as [|a part IH]; intros afterLf cur tail H.
  - rewrite (append_nil_r cur). unfold Js.blankLine at 2.
    cbn [append Js.splitFrom]. rewrite prefix_blankLine, Ascii.eqb_refl.
    reflexivity.
  - cbn [Script.cleanFrom] in H. apply andb_true_iff in H. destruct H as [_ H].
    cbn [append Js.splitFrom]. rewrite prefix_blankLine.
    assert (E : Ascii.eqb a Js.lf &&
                match part ++ Js.blankLine ++ tail with
                | EmptyString => false
                | String b _ => Ascii.eqb b Js.lf
                end = false).
    { destruct (Ascii.eqb a Js.lf); [|reflexivity].
      cbn [andb]. now apply cleanFrom_after_lf. }
    rewrite E, (IH _ _ _ H), append_assoc. reflexivity.
Qed.

(** The split passes a clean last part. *)
Lemma splitFrom_clean_last (part : string) :
  forall afterLf cur,
    Script.cleanFrom afterLf part = true ->
    Js.splitFrom Js.blankLine 0 cur part = [cur ++ part].
Proof.
  induction part as [|a part IH]; intros afterLf cur H.
  - now rewrite append_nil_r.
  - cbn [Script.cleanFrom] in H. apply andb_true_iff in H. destruct H as [_ H].
    cbn [Js.splitFrom]. rewrite prefix_blankLine.
    assert (E : Ascii.eqb a Js.lf &&
                match part with
                | EmptyString => false
                | String b _ => Ascii.eqb b Js.lf
                end = false).
    { destruct (Ascii.eqb a Js.lf); [|reflexivity].
      cbn [andb]. rewrite <- (append_nil_r part).
      now apply cleanFrom_after_lf. }
    rewrite E, (IH _ _ H), append_assoc. reflexivity.
Qed.

(** Joined with blank lines and split again, clean parts come back. *)
Lemma split_join_clean (part : string) (parts : list string) :
  Forall (fun p => Script.clean p = true) (part :: parts) ->
  Js.split Js.blankLine (Js.join Js.blankLine (part :: parts)) = part :: parts.
Proof.
  revert part. induction parts as [|q parts IH]; intros part H.
  - inversion H; subst. unfold Js.split, Js.join. cbn [String.concat].
    now rewrite (splitFrom_clean_last part false EmptyString).
  - inversion H as [|? ? Hp Hrest]; subst.
    unfold Js.split, Js.join in *.
    change (String.concat Js.blankLine (part :: q :: parts))
      with (part ++ Js.blankLine ++ String.concat Js.blankLine (q :: parts)).
    rewrite (splitFrom_clean_part part false EmptyString _ Hp).
    now rewrite (IH q Hrest).
Qed.

(** The texts of the scenes, when the parts are there. *)
Lemma scenesFrom_texts (f : SceneTemplate.t -> string) (parts : list string)
    (l : list SceneTemplate.t) :
  forall k,
    (forall i st, nth_error l i = Some st ->
                  nth_error parts (k + i) = Some (f st)) ->
    map VideoScene.text (TemplateEngine.scenesFrom parts k l) = map f l.
Proof.
  induction l as [|st l IH]; intros k H;
    cbn [TemplateEngine.scenesFrom map VideoScene.text]; [reflexivity|].
  pose proof (H 0 st eq_refl) as H0. rewrite Nat.add_0_r in H0.
  rewrite H0, orString_some_empty, IH; [reflexivity|].
  intros i st' Hi. rewrite Nat.add_succ_l, <- Nat.add_succ_r.
  now apply H.
Qed.

End ScriptRoundTrip.

(** X10.  The script that [buildScriptFromTemplate] builds gives every
    scene its own text back.  When, after the substitution of the inputs,
    no text of a scene template has two line feeds in a row or ends with a
    line feed, the scenes that [generateScenes] makes of the built script
    have exactly these texts, scene by scene.  (The inputs are taken with
    keys and values that the replacement reads literally.) *)
Theorem script_round_trip (template : TemplateConfig.t)
    (userInputs : list (string * string)) :
  Forall (fun input => Script.plainInput input = true) userInputs ->
  Forall (fun part => Script.clean part = true)
         (Script.scriptParts template userInputs) ->
  map VideoScene.text
      (TemplateEngine.generateScenes template
         (Script.buildScriptFromTemplate template userInputs)) =
  Script.scriptParts template userInputs.
Proof.
  intros _ Hclean. unfold TemplateEngine.generateScenes,
    Script.buildScriptFromTemplate.
  destruct (Script.scriptParts template userInputs) as [|part parts] eqn:E.
  - unfold Script.scriptParts in E. apply map_eq_nil in E. now rewrite E.
  - rewrite (split_join_clean part parts Hclean), <- E.
    unfold Script.scriptParts. apply scenesFrom_texts.
    intros i st Hi. cbn [Nat.add]. now rewrite nth_error_map, Hi.
Qed.

(** A template of two scenes with a placeholder each. *)
Module Greeting.

Definition sceneTemplate (id text : string) : SceneTemplate.t :=
  SceneTemplate.mk id "main" None (Some text) "stock-footage" "fade-in"
    "modern" None None.

Definition template : TemplateConfig.t :=
  TemplateConfig.mk "greet-001"
    [ sceneTemplate "hook" "Hello {{name}}!";
      sceneTemplate "cta" "Follow {{channel}} for more, {{name}}." ]
    "modern" None None None.

Definition userInputs : list (string * string) :=
  [ ("name", "Ada"); ("channel", "the lab") ].

End Greeting.

Lemma script_round_trip_witness :
  Script.scriptParts Greeting.template Greeting.userInputs =
    [ "Hello Ada!"; "Follow the lab for more, Ada." ]
  /\ map VideoScene.text
       (TemplateEngine.generateScenes Greeting.template
          (Script.buildScriptFromTemplate Greeting.template Greeting.userInputs)) =
     Script.scriptParts Greeting.template Greeting.userInputs.
Proof.
  split; [reflexivity|].
  apply (script_round_trip Greeting.template Greeting.userInputs).
  - repeat constructor.
  - repeat constructor.
Defined.

(* ================================================================= *)
(** * The inputs that the stages refer to *)

Section References.








End References.


(* ================================================================= *)
(** * The global effects stage *)

Section GlobalEffects.

(** The filter that [buildGlobalEffectsFilter] has for a tag; the tags of
    the [default] branch have none. *)
Definition knownGlobalEffect (effect : string) : option string :=
  if String.eqb effect "color-grading"
  then Some "eq=contrast=1.1:brightness=0.05:saturation=1.2"
  else if String.eqb effect "film-grain" then Some "noise=c0s=15:allf=t"
  else if String.eqb effect "vignette" then Some "vignette=angle=PI/3"
  else None.

Definition globalChain (effects : list string) : list string :=
  flat_map (fun e => match knownGlobalEffect e with
                     | Some f => [f]
                     | None => []
                     end) effects.

(** The tags of the type [EffectType]. *)
Definition effectTypes : list string :=
  [ "vignette"; "chromatic-aberration"; "film-grain"; "color-grading";
    "blur"; "sharpen"; "glow"; "lens-flare"; "particles"; "light-leaks";
    "distortion"; "scanlines" ].

Definition hasFilter (table : string -> option string) (effect : string)
  : bool :=
  match table effect with
  | Some _ => true
  | None => false
  end.

Lemma globalEffectText_known (e : string) :
  globalEffectText e =
  match knownGlobalEffect e with
  | Some f => f ++ ","
  | None => EmptyString
  end.
Proof.
  unfold globalEffectText, knownGlobalEffect.
  destruct (String.eqb e "color-grading"); [reflexivity|].
  destruct (String.eqb e "film-grain"); [reflexivity|].
  now destruct (String.eqb e "vignette").
Qed.

(** The loop of the builder appends the filters of the known tags, each
    with its comma, to what it starts from. *)
Lemma fold_globalEffectText (effects : list string) :
  forall filter,
    fold_left (fun filter effect => filter ++ globalEffectText effect)
      effects filter =
    filter ++ commaTerminated (globalChain effects).
Proof.
  unfold globalChain.
  induction effects as [|e rest IH]; intro filter; cbn [fold_left flat_map].
  - symmetry. apply append_nil_r.
  - rewrite IH, globalEffectText_known.
    destruct (knownGlobalEffect e) as [f|]; cbn [app commaTerminated].
    + now rewrite !append_assoc.
    + now rewrite append_nil_r.
Qed.

(** Dropping the final comma after a closing bracket and a comma
    terminated chain leaves the chain joined by commas. *)
Lemma dropFinalComma_chain (label : string) (l : list string) :
  Js.dropFinalComma ((label ++ "]") ++ commaTerminated l) =
  (label ++ "]") ++ Js.join "," l.
Proof.
  destruct l as [|f l].
  - cbn [commaTerminated Js.join String.concat]. rewrite !append_nil_r.
    now apply dropFinalComma_other.
  - rewrite commaTerminated_join, <- append_assoc.
    apply dropFinalComma_comma.
Qed.

End GlobalEffects.

(** X12.  The global effects stage is the comma chain of the filters of
    the known tags ([color-grading], [film-grain], [vignette]), in listed
    order, between the labels [[vout]] and [[vfinal]]; every other tag is
    skipped.  A configuration whose global effects are all skipped still
    gets the stage, with nothing between the two labels.  Of the twelve
    tags of [EffectType], the scene builder has a filter for seven, the
    global builder for three, and four have a filter in neither. *)
Theorem buildGlobalEffectsFilter_chain :
  (forall effects,
      buildGlobalEffectsFilter effects =
      "[vout]" ++ Js.join "," (globalChain effects) ++ "[vfinal]")
  /\ (forall config e rest,
        CompositionConfig.globalEffects config = e :: rest ->
        globalChain (e :: rest) = [] ->
        globalStages config = ["[vout][vfinal]"])
  /\ filter (hasFilter knownEffect) effectTypes =
     [ "vignette"; "chromatic-aberration"; "film-grain"; "blur"; "sharpen";
       "glow"; "scanlines" ]
  /\ filter (hasFilter knownGlobalEffect) effectTypes =
     [ "vignette"; "film-grain"; "color-grading" ]
  /\ filter (fun e => negb (hasFilter knownEffect e)
                      && negb (hasFilter knownGlobalEffect e)) effectTypes =
     [ "lens-flare"; "particles"; "light-leaks"; "distortion" ].
Proof.
  assert (Hchain : forall effects,
             buildGlobalEffectsFilter effects =
             "[vout]" ++ Js.join "," (globalChain effects) ++ "[vfinal]").
  { intro effects. unfold buildGlobalEffectsFilter.
    rewrite fold_globalEffectText.
    change "[vout]" with ("[vout" ++ "]").
    rewrite dropFinalComma_chain. now rewrite !append_assoc. }
  split; [exact Hchain|]. split; [|repeat split].
  intros config e rest Heffects Hnone. unfold globalStages.
  rewrite Heffects, Hchain, Hnone. reflexivity.
Qed.

(* ================================================================= *)
(** * What the compositor reads of a request *)

Section Reads.

(** A scene as far as [buildCompositionConfig] reads it: id, text,
    duration and effects. *)
Definition sceneRead (scene : VideoScene.t) : VideoScene.t :=
  VideoScene.mk (VideoScene.id scene) (VideoScene.text scene)
    (VideoScene.duration scene) EmptyString EmptyString EmptyString
    EmptyString None (VideoScene.effects scene).

(** A caption request as far as it is read: all but the font. *)
Definition captionsRead (captions : CaptionParams.t) : CaptionParams.t :=
  CaptionParams.mk (CaptionParams.enabled captions)
    (CaptionParams.style captions) (CaptionParams.position captions)
    0%Q EmptyString (CaptionParams.animation captions).

(** A request as far as it is read: all but the job id, the fonts of the
    caption request and the unread fields of the scenes. *)
Definition paramsRead (params : VideoCompositionParams.t)
  : VideoCompositionParams.t :=
  VideoCompositionParams.mk EmptyString
    (map sceneRead (VideoCompositionParams.scenes params))
    (VideoCompositionParams.voiceovers params)
    (VideoCompositionParams.backgrounds params)
    (captionsRead (VideoCompositionParams.captions params))
    (VideoCompositionParams.music params)
    (VideoCompositionParams.transitions params)
    (VideoCompositionParams.effects params)
    (VideoCompositionParams.outputFormat params)
    (VideoCompositionParams.resolution params).

Lemma buildScenes_read (params : VideoCompositionParams.t)
    (l : list VideoScene.t) :
  forall index currentTimestamp,
    buildScenes (paramsRead params) index currentTimestamp (map sceneRead l) =
    buildScenes params index currentTimestamp l.
Proof.
  induction l as [|scene l IH]; intros index currentTimestamp;
    [reflexivity|].
  cbn [map buildScenes]. f_equal. apply IH.
Qed.

Lemma buildCompositionConfig_read (params : VideoCompositionParams.t) :
  buildCompositionConfig (paramsRead params) = buildCompositionConfig params.
Proof.
  unfold buildCompositionConfig.
  change (VideoCompositionParams.scenes (paramsRead params))
    with (map sceneRead (VideoCompositionParams.scenes params)).
  now rewrite buildScenes_read.
Qed.

End Reads.

(** X13.  Two requests that differ only in what the compositor does not
    read get the same configuration and the same command.  What is not
    read: the job id, the font size and font family of the caption
    request, and of every scene its type, animation, background type,
    caption style and music track.  So a caption style set on a scene has
    no effect: every scene is captioned in the style of the request. *)
Theorem buildCompositionConfig_unread (numToString : Q -> string)
    (params params' : VideoCompositionParams.t) :
  paramsRead params = paramsRead params' ->
  buildCompositionConfig params = buildCompositionConfig params'
  /\ fst (generateFFmpegCommand numToString (buildCompositionConfig params)) =
     fst (generateFFmpegCommand numToString (buildCompositionConfig params')).
Proof.
  intro Hread.
  assert (H : buildCompositionConfig params = buildCompositionConfig params').
  { rewrite <- (buildCompositionConfig_read params), Hread.
    apply buildCompositionConfig_read. }
  split; [exact H|]. now rewrite H.
Qed.

(** Two one-scene requests: the second sets another caption style, type
    and animation on the scene, another job id and another font. *)
Module RestyledScene.

Definition scene (type animation captionStyle : string) : VideoScene.t :=
  VideoScene.mk "scene_0" "Hello" 3%Q type animation "gradient" captionStyle
    None [].

Definition params (jobId : string) (scene : VideoScene.t) (fontSize : Q)
    (fontFamily : string) : VideoCompositionParams.t :=
  VideoCompositionParams.mk jobId [scene]
    [Voiceover.mk "scene_0" "voice.mp3"] [Background.mk "scene_0" "bg.mp4"]
    (CaptionParams.mk true "modern" "bottom" fontSize fontFamily "word-by-word")
    (MusicParams.mk false "upbeat_1" (3 # 10)%Q) [] [] "mp4"
    (Resolution.mk 1080%Q 1920%Q).

Definition first : VideoCompositionParams.t :=
  params "job_1" (scene "hook" "fade-in" "modern") 48%Q "Montserrat".

Definition second : VideoCompositionParams.t :=
  params "job_2" (scene "cta" "bounce" "neon") 96%Q "Impact".

End RestyledScene.

Lemma buildCompositionConfig_unread_witness :
  RestyledScene.first <> RestyledScene.second
  /\ buildCompositionConfig RestyledScene.first =
     buildCompositionConfig RestyledScene.second
  /\ fst (generateFFmpegCommand Decimal.numToString
            (buildCompositionConfig RestyledScene.first)) =
     fst (generateFFmpegCommand Decimal.numToString
            (buildCompositionConfig RestyledScene.second)).
Proof.
  split; [discriminate|].
  apply (buildCompositionConfig_unread Decimal.numToString
           RestyledScene.first RestyledScene.second).
  reflexivity.
Defined.

(* ================================================================= *)
(** * The catalogue of caption styles *)

Module CaptionInfo.
Record t : Type := mk {
  id : string;
  name : string;
  description : string;
  preview : string
}.
End CaptionInfo.

Section CaptionCatalogue.

(** [getAllCaptionStyles]. *)
Definition getAllCaptionStyles : list CaptionInfo.t :=
  [
    CaptionInfo.mk "modern" "Modern"
      "Clean, professional captions with shadow"
      "https://storage.viral-engine-pro.com/previews/caption-modern.png";
    CaptionInfo.mk "bold" "Bold"
      "High-impact yellow text with thick stroke"
      "https://storage.viral-engine-pro.com/previews/caption-bold.png";
    CaptionInfo.mk "minimal" "Minimal"
      "Simple, elegant white text"
      "https://storage.viral-engine-pro.com/previews/caption-minimal.png";
    CaptionInfo.mk "neon" "Neon"
      "Cyberpunk-style glowing text"
      "https://storage.viral-engine-pro.com/previews/caption-neon.png";
    CaptionInfo.mk "retro" "Retro"
      "Vintage 80s-style captions"
      "https://storage.viral-engine-pro.com/previews/caption-retro.png";
    CaptionInfo.mk "handwritten" "Handwritten"
      "Casual, friendly handwritten style"
      "https://storage.viral-engine-pro.com/previews/caption-handwritten.png";
    CaptionInfo.mk "comic" "Comic"
      "Comic book-style action text"
      "https://storage.viral-engine-pro.com/previews/caption-comic.png";
    CaptionInfo.mk "elegant" "Elegant"
      "Sophisticated serif font"
      "https://storage.viral-engine-pro.com/previews/caption-elegant.png";
    CaptionInfo.mk "grunge" "Grunge"
      "Rough, edgy aesthetic"
      "https://storage.viral-engine-pro.com/previews/caption-grunge.png";
    CaptionInfo.mk "kawaii" "Kawaii"
      "Cute Japanese-inspired style"
      "https://storage.viral-engine-pro.com/previews/caption-kawaii.png";
    CaptionInfo.mk "alex-hormozi" "Alex Hormozi"
      "Bold, centered text like $100M offers"
      "https://storage.viral-engine-pro.com/previews/caption-hormozi.png";
    CaptionInfo.mk "mr-beast" "MrBeast"
      "Massive yellow impact text"
      "https://storage.viral-engine-pro.com/previews/caption-mrbeast.png";
    CaptionInfo.mk "vsauce" "VSauce"
      "Educational documentary style"
      "https://storage.viral-engine-pro.com/previews/caption-vsauce.png" ].

(** The names of the type [CaptionStyleType]. *)
Definition captionStyleTypes : list string :=
  [ "modern"; "bold"; "minimal"; "neon"; "retro"; "handwritten"; "comic";
    "elegant"; "grunge"; "kawaii"; "alex-hormozi"; "mr-beast"; "vsauce" ].

(** What of a style reaches the caption stage apart from the numbers. *)
Definition styleLook (style : CaptionStyle.t)
  : string * string * option string * option string :=
  (CaptionStyle.fontFamily style, CaptionStyle.color style,
   CaptionStyle.strokeColor style,
   option_map Shadow.color (CaptionStyle.shadow style)).

(** In a table without a repeated key, an entry is what its key looks
    up. *)
Lemma lookup_entry (table : list (string * CaptionStyle.t)) :
  NoDup (map fst table) ->
  forall name style,
    In (name, style) table -> CaptionStyles.lookup name table = Some style.
Proof.
  induction table as [|[k v] table IH]; intros Hkeys name style Hin.
  - destruct Hin.
  - cbn [map fst] in Hkeys. apply NoDup_cons_iff in Hkeys.
    destruct Hkeys as [Hfresh Hkeys]. cbn [CaptionStyles.lookup].
    destruct Hin as [Hhead|Hin].
    + injection Hhead as -> ->. now rewrite String.eqb_refl.
    + destruct (String.eqb_spec k name) as [->|_].
      * exfalso. apply Hfresh. apply (in_map fst) in Hin. exact Hin.
      * now apply IH.
Qed.

Lemma styles_keys : NoDup (map fst CaptionStyles.styles).
Proof.
  cbn [map fst CaptionStyles.styles].
  repeat (apply NoDup_cons;
          [cbn [In]; intro H; decompose [or] H; discriminate || assumption|]).
  apply NoDup_nil.
Qed.

End CaptionCatalogue.

(** X14.  The catalogue and the table of caption styles agree.  The ids
    that [getAllCaptionStyles] lists are the keys of the table of
    [getCaptionStyle], in the same order, and they are the thirteen names of
    [CaptionStyleType]; no key occurs twice.  So for every entry of the
    table [getCaptionStyle] returns that entry at its key, never the
    fallback in its place, and no two listed ids get the same look (font,
    colour, stroke colour and shadow colour). *)
Theorem getCaptionStyle_catalogue :
  map CaptionInfo.id getAllCaptionStyles = map fst CaptionStyles.styles
  /\ map fst CaptionStyles.styles = captionStyleTypes
  /\ NoDup (map fst CaptionStyles.styles)
  /\ (forall name style,
        In (name, style) CaptionStyles.styles ->
        CaptionStyles.getCaptionStyle name = style)
  /\ NoDup (map (fun info =>
                   styleLook (CaptionStyles.getCaptionStyle (CaptionInfo.id info)))
                getAllCaptionStyles).
Proof.
  split; [reflexivity|]. split; [reflexivity|].
  split; [exact styles_keys|]. split.
  - intros name style Hin. unfold CaptionStyles.getCaptionStyle.
    now rewrite (lookup_entry _ styles_keys name style Hin).
  - cbv [getAllCaptionStyles map CaptionInfo.id].
    repeat (apply NoDup_cons;
            [cbn [In]; intro H; decompose [or] H;
             discriminate || assumption|]).
    apply NoDup_nil.
Qed.

(* ================================================================= *)
(** * The catalogue of viral templates

    The catalogue [ALL_VIRAL_TEMPLATES] is one array that the query
    functions share.  [getTopViralTemplates] sorts it in place, so a call
    returns its result and leaves the catalogue in another order; the model
    passes the catalogue through.  The sort of an array is stable, and the
    comparator [b.viralScore - a.viralScore] orders by descending score:
    the result is the one arrangement of the array that is in descending
    order of score and keeps the templates of equal score in the order they
    had, which is what insertion in front of the first template of no
    greater score computes. *)

Module Catalogue.

Section Queries.

Variable Template : Type.
Variable category : Template -> string.
Variable viralScore : Template -> Q.

(** [a] stays in front of [b]: the comparator is not positive. *)
Definition before (a b : Template) : bool :=
  Qle_bool (viralScore b) (viralScore a).

Fixpoint place (t : Template) (sorted : list Template) : list Template :=
  match sorted with
  | [] => [t]
  | u :: rest => if before t u then t :: sorted else u :: place t rest
  end.

(** [array.sort((a, b) => b.viralScore - a.viralScore)]. *)
Definition sort (catalogue : list Template) : list Template :=
  fold_right place [] catalogue.

(** [array.slice(0, limit)] for an integer [limit]; a negative one counts
    from the end. *)
Definition slice0 (limit : Z) (l : list Template) : list Template :=
  if (limit <? 0)%Z
  then firstn (List.length l - Z.to_nat (- limit)) l
  else firstn (Z.to_nat limit) l.

(** [getTopViralTemplates(limit)], [limit] being 10 when it is not given:
    the result and the catalogue as the call leaves it. *)
Definition getTopViralTemplates (limit : option Z) (catalogue : list Template)
  : list Template * list Template :=
  let limit := match limit with Some k => k | None => 10%Z end in
  let sorted := sort catalogue in
  (slice0 limit sorted, sorted).

Definition getTemplatesByCategory (name : string) (catalogue : list Template)
  : list Template :=
  filter (fun t => String.eqb (category t) name) catalogue.

End Queries.

End Catalogue.

Section CatalogueOrder.

Variable Template : Type.
Variable viralScore : Template -> Q.

Local Abbreviation before := (Catalogue.before Template viralScore).
Local Abbreviation place := (Catalogue.place Template viralScore).
Local Abbreviation sort := (Catalogue.sort Template viralScore).

(** Descending order of score. *)
Definition notBelow (a b : Template) : Prop :=
  (viralScore b <= viralScore a)%Q.

Definition hasScore (s : Q) (t : Template) : bool :=
  Qeq_bool (viralScore t) s.

Lemma before_true (a b : Template) : before a b = true <-> notBelow a b.
Proof. apply Qle_bool_iff. Qed.

Lemma before_false (a b : Template) :
  before a b = false -> (viralScore a < viralScore b)%Q.
Proof.
  intro H. apply Qnot_le_lt. intro Hle.
  apply before_true in Hle. congruence.
Qed.

Lemma place_permutation (t : Template) (l : list Template) :
  Permutation (t :: l) (place t l).
Proof.
  induction l as [|u l IH]; cbn [Catalogue.place]; [reflexivity|].
  destruct (before t u); [reflexivity|].
  rewrite perm_swap. now apply perm_skip.
Qed.

Lemma sort_permutation (l : list Template) : Permutation l (sort l).
Proof.
  induction l as [|t l IH]; [constructor|].
  change (sort (t :: l)) with (place t (sort l)).
  rewrite <- place_permutation. now apply perm_skip.
Qed.

Lemma place_sorted (t : Template) (l : list Template) :
  StronglySorted notBelow l -> StronglySorted notBelow (place t l).
Proof.
  induction 1 as [|u l Hl IH Hu]; cbn [Catalogue.place].
  - repeat constructor.
  - destruct (before t u) eqn:E.
    + apply before_true in E. constructor; [now constructor|].
      constructor; [exact E|].
      apply Forall_forall. intros v Hv.
      rewrite Forall_forall in Hu. specialize (Hu v Hv).
      unfold notBelow in *. now apply Qle_trans with (viralScore u).
    + apply before_false in E. constructor; [exact IH|].
      apply Forall_forall. intros v Hv.
      apply (Permutation_in _ (Permutation_sym (place_permutation t l))) in Hv.
      destruct Hv as [<-|Hv].
      * now apply Qlt_le_weak.
      * rewrite Forall_forall in Hu. now apply Hu.
Qed.

Lemma sort_sorted (l : list Template) : StronglySorted notBelow (sort l).
Proof.
  induction l as [|t l IH]; [constructor|].
  change (sort (t :: l)) with (place t (sort l)). now apply place_sorted.
Qed.

(** A template goes in front of a list that is nowhere above it. *)
Lemma place_front (t : Template) (l : list Template) :
  Forall (notBelow t) l -> place t l = t :: l.
Proof.
  intros [|u rest Hu _]; [reflexivity|]. cbn [Catalogue.place].
  apply before_true in Hu. now rewrite Hu.
Qed.

Lemma sort_fixed (l : list Template) :
  StronglySorted notBelow l -> sort l = l.
Proof.
  induction 1 as [|t l _ IH Ht]; [reflexivity|].
  change (sort (t :: l)) with (place t (sort l)).
  rewrite IH. now apply place_front.
Qed.

(** The sort is stable: among the templates of one score nothing moves. *)
Lemma place_stable (s : Q) (t : Template) (l : list Template) :
  filter (hasScore s) (place t l) = filter (hasScore s) (t :: l).
Proof.
  induction l as [|u l IH]; cbn [Catalogue.place]; [reflexivity|].
  destruct (before t u) eqn:E; [reflexivity|].
  apply before_false in E.
  change (filter (hasScore s) (u :: place t l))
    with (if hasScore s u then u :: filter (hasScore s) (place t l)
          else filter (hasScore s) (place t l)).
  rewrite IH. cbn [filter]. unfold hasScore in *.
  destruct (Qeq_bool (viralScore u) s) eqn:Eu;
    destruct (Qeq_bool (viralScore t) s) eqn:Et; try reflexivity.
  apply Qeq_bool_iff in Eu, Et. rewrite Eu, Et in E.
  now apply Qlt_irrefl in E.
Qed.

Lemma sort_stable (s : Q) (l : list Template) :
  filter (hasScore s) (sort l) = filter (hasScore s) l.
Proof.
  induction l as [|t l IH]; [reflexivity|].
  change (sort (t :: l)) with (place t (sort l)).
  rewrite place_stable. cbn [filter]. now rewrite IH.
Qed.

Lemma filter_sorted (keep : Template -> bool) (l : list Template) :
  StronglySorted notBelow l -> StronglySorted notBelow (filter keep l).
Proof.
  induction 1 as [|t l _ IH Ht]; cbn [filter]; [constructor|].
  destruct (keep t); [|exact IH]. constructor; [exact IH|].
  apply Forall_forall. intros u Hu. apply filter_In in Hu.
  rewrite Forall_forall in Ht. now apply Ht.
Qed.

End CatalogueOrder.

(** X15.  [getTopViralTemplates] reorders the catalogue that the other
    queries read.  For every catalogue and limit, the call leaves the
    catalogue as a rearrangement of what it was, in descending order of
    viral score, with the templates of equal score in the order they had;
    it returns the first [limit] templates of that order (all of them when
    there are fewer), so no template left out scores above a returned one.
    A second call returns the same and changes nothing more.  After a call,
    [getTemplatesByCategory] lists the templates of a category in
    descending order of score instead of catalogue order. *)
Theorem getTopViralTemplates_reorders (Template : Type)
    (category : Template -> string) (viralScore : Template -> Q)
    (limit : option Z) (catalogue : list Template) :
  let call := Catalogue.getTopViralTemplates Template viralScore limit catalogue in
  let top := fst call in
  let after := snd call in
  Permutation catalogue after
  /\ StronglySorted (notBelow Template viralScore) after
  /\ (forall s,
        filter (hasScore Template viralScore s) after =
        filter (hasScore Template viralScore s) catalogue)
  /\ (forall k,
        match limit with Some z => z | None => 10%Z end = Z.of_nat k ->
        top = firstn k after
        /\ List.length top = Nat.min k (List.length catalogue)
        /\ forall t u,
             In t top -> In u (skipn k after) ->
             (viralScore u <= viralScore t)%Q)
  /\ Catalogue.getTopViralTemplates Template viralScore limit after = call
  /\ (forall name,
        StronglySorted (notBelow Template viralScore)
          (Catalogue.getTemplatesByCategory Template category name after)).
Proof.
  intros call top after. subst top after call.
  unfold Catalogue.getTopViralTemplates. cbn [fst snd].
  set (sorted := Catalogue.sort Template viralScore catalogue).
  pose proof (sort_sorted Template viralScore catalogue) as Hsorted.
  pose proof (sort_permutation Template viralScore catalogue) as Hperm.
  fold sorted in Hsorted, Hperm.
  split; [exact Hperm|]. split; [exact Hsorted|].
  split; [intro s; apply sort_stable|]. split; [|split].
  - intros k Hk. rewrite Hk. unfold Catalogue.slice0.
    destruct (Z.ltb_spec (Z.of_nat k) 0) as [Hneg|_]; [lia|].
    rewrite Nat2Z.id. split; [reflexivity|]. split.
    + rewrite length_firstn. now rewrite <- (Permutation_length Hperm).
    + intros t u Ht Hu.
      rewrite <- (firstn_skipn k sorted) in Hsorted.
      revert Ht Hu Hsorted. generalize (firstn k sorted) (skipn k sorted).
      intros front back Ht Hu Hs.
      induction front as [|v front IH]; [destruct Ht|].
      cbn [app] in Hs. apply StronglySorted_inv in Hs.
      destruct Hs as [Hs Hv]. destruct Ht as [<-|Ht].
      * rewrite Forall_forall in Hv. apply Hv, in_or_app. now right.
      * now apply IH.
  - now rewrite (sort_fixed Template viralScore sorted Hsorted).
  - intro name. now apply filter_sorted.
Qed.
